(** * The HTTP serving layer of frigate (frigate/http.py)

    A shallow embedding of the request handlers of [frigate/http.py]:
    the [/events] query, the [/stats] snapshot, the [best.jpg] and
    [latest.jpg] image endpoints and the MJPEG generator.

    Conventions of the embedding:
    - a Python exception that no handler catches is a value [Raise e];
      Flask turns it into a 500 response;
    - [request.args] is a finite map from parameter names to their raw text;
    - an image is known by its shape and by whether it is the all-zero
      placeholder; pixel values play no part in what is proved here;
    - a Python float is a binary64 number, taken from the specification of
      IEEE 754 arithmetic in the standard library ([spec_float]);
    - numpy, OpenCV, peewee and SQLite are libraries outside the repository,
      each modelled by the documented behaviour of the calls the handlers
      make. *)

From Stdlib Require Import ZArith QArith Qround Ascii String List.
From Stdlib Require Import DecimalString DecimalPos DecimalZ Lqa SpecFloat.
From stdpp Require Import gmap strings list sorting.

Local Open Scope Z_scope.

(** ** Exceptions and the error monad *)

Inductive exn : Type :=
| ValueError            (* int() of bad text, negative sleep, negative dimension *)
| ZeroDivisionError     (* [/] with a zero divisor *)
| Cv2Error              (* an OpenCV assertion *)
| DatabaseError         (* the statement was refused by SQLite *)
| TypeError             (* reduce() of an empty sequence *)
| OverflowError.        (* an integer too large to bind to a statement *)

Inductive result (A : Type) : Type :=
| Ok (a : A)
| Raise (e : exn).
Arguments Ok {A} a.
Arguments Raise {A} e.

#[global] Instance result_ret : MRet result := fun A a => Ok a.

#[global] Instance result_bind : MBind result := fun A B k r =>
  match r with
  | Ok a => k a
  | Raise e => Raise e
  end.

(** ** Python's [int(text)] and [str(n)] *)

Module Py.

(** A text is held as the bytes of its UTF-8 form, which is how a request
    carries it.  [code_points] reads the characters back; the bytes that are
    not UTF-8 stand for no text. *)
Definition continuation (b : ascii) : option N :=
  let n := N_of_ascii b in
  if (128 <=? n)%N && (n <? 192)%N then Some (n - 128)%N else None.

(** A character read from a form of its shortest length: no surrogate and
    nothing above U+10FFFF. *)
Definition scalar (least c : N) : option N :=
  if (least <=? c)%N && (c <=? 1114111)%N
     && negb ((55296 <=? c)%N && (c <=? 57343)%N)
  then Some c else None.

Fixpoint code_points (l : list ascii) : option (list N) :=
  match l with
  | [] => Some []
  | b0 :: l1 =>
      let n0 := N_of_ascii b0 in
      if (n0 <? 128)%N then option_map (cons n0) (code_points l1)
      else if (n0 <? 192)%N then None
      else if (n0 <? 224)%N then
        match l1 with
        | b1 :: l2 =>
            match continuation b1 with
            | Some n1 =>
                match scalar 128 ((n0 - 192) * 64 + n1) with
                | Some c => option_map (cons c) (code_points l2)
                | None => None
                end
            | None => None
            end
        | _ => None
        end
      else if (n0 <? 240)%N then
        match l1 with
        | b1 :: b2 :: l3 =>
            match continuation b1, continuation b2 with
            | Some n1, Some n2 =>
                match scalar 2048 (((n0 - 224) * 64 + n1) * 64 + n2) with
                | Some c => option_map (cons c) (code_points l3)
                | None => None
                end
            | _, _ => None
            end
        | _ => None
        end
      else if (n0 <? 248)%N then
        match l1 with
        | b1 :: b2 :: b3 :: l4 =>
            match continuation b1, continuation b2, continuation b3 with
            | Some n1, Some n2, Some n3 =>
                match scalar 65536
                        ((((n0 - 240) * 64 + n1) * 64 + n2) * 64 + n3) with
                | Some c => option_map (cons c) (code_points l4)
                | None => None
                end
            | _, _, _ => None
            end
        | _ => None
        end
      else None
  end.

(** The white space of Unicode from U+007F upward ([str.isspace]). *)
Definition unicode_spaces : list N :=
  [133; 160; 5760; 8192; 8193; 8194; 8195; 8196; 8197; 8198; 8199; 8200;
   8201; 8202; 8232; 8233; 8239; 8287; 12288]%N.

(** The decimal digits of Unicode 14.0 (the tables of CPython 3.11) from
    U+007F upward come in runs of ten, zero to nine; these are the zeros. *)
Definition decimal_zeros : list N :=
  [1632; 1776; 1984; 2406; 2534; 2662; 2790; 2918; 3046; 3174; 3302; 3430;
   3558; 3664; 3792; 3872; 4160; 4240; 6112; 6160; 6470; 6608; 6784; 6800;
   6992; 7088; 7232; 7248; 42528; 43216; 43264; 43472; 43504; 43600; 44016;
   65296; 66720; 68912; 69734; 69872; 69942; 70096; 70384; 70736; 70864;
   71248; 71360; 71472; 71904; 72016; 72784; 73040; 73120; 92768; 92864;
   93008; 120782; 120792; 120802; 120812; 120822; 123200; 123632; 125264;
   130032]%N.

Definition decimal_value (c : N) : option N :=
  option_map (fun zero => (c - zero)%N)
    (List.find (fun zero => (zero <=? c)%N && (c <=? zero + 9)%N)
       decimal_zeros).

(** What [int] does to one character before it parses: ASCII is kept, white
    space becomes a blank, a decimal digit of any script becomes the ASCII
    digit of its value, and anything else is refused. *)
Definition to_ascii (c : N) : option ascii :=
  if (c <? 127)%N then Some (ascii_of_N c)
  else if existsb (N.eqb c) unicode_spaces then Some " "%char
  else option_map (fun d => ascii_of_N (48 + d)) (decimal_value c).

Fixpoint to_ascii_all (cs : list N) : option (list ascii) :=
  match cs with
  | [] => Some []
  | c :: cs' =>
      match to_ascii c, to_ascii_all cs' with
      | Some a, Some l => Some (a :: l)
      | _, _ => None
      end
  end.

(** The ASCII characters that the parser skips at both ends. *)
Definition is_space (c : ascii) : bool :=
  let n := N_of_ascii c in
  ((9 <=? n)%N && (n <=? 13)%N) || (n =? 32)%N.

Fixpoint lstrip (l : list ascii) : list ascii :=
  match l with
  | c :: l' => if is_space c then lstrip l' else l
  | [] => []
  end.

Definition strip (l : list ascii) : list ascii :=
  rev (lstrip (rev (lstrip l))).

Definition digit (c : ascii) : option (Decimal.uint -> Decimal.uint) :=
  match c with
  | "0"%char => Some Decimal.D0 | "1"%char => Some Decimal.D1
  | "2"%char => Some Decimal.D2 | "3"%char => Some Decimal.D3
  | "4"%char => Some Decimal.D4 | "5"%char => Some Decimal.D5
  | "6"%char => Some Decimal.D6 | "7"%char => Some Decimal.D7
  | "8"%char => Some Decimal.D8 | "9"%char => Some Decimal.D9
  | _ => None
  end.

(** Digits, with single underscores allowed between two digits.
    [after_digit] tells whether the previous character was a digit. *)
Fixpoint digits (after_digit : bool) (l : list ascii) : option Decimal.uint :=
  match l with
  | [] => if after_digit then Some Decimal.Nil else None
  | c :: l' =>
      match digit c with
      | Some d => option_map d (digits true l')
      | None =>
          if Ascii.eqb c "_" && after_digit then digits false l' else None
      end
  end.

(** [sys.get_int_max_str_digits()]: CPython 3.11 converts no text of more
    digits than this, leading zeros counted. *)
Definition max_str_digits : Z := 4300.

Definition within_limit (d : Decimal.uint) : option Decimal.uint :=
  if Z.of_nat (Decimal.nb_digits d) <=? max_str_digits then Some d else None.

Definition int_of_chars (l : list ascii) : option Z :=
  match strip l with
  | "-"%char :: l' =>
      option_map (fun d => - Z.of_uint d) (digits false l' ≫= within_limit)
  | "+"%char :: l' =>
      option_map Z.of_uint (digits false l' ≫= within_limit)
  | l' => option_map Z.of_uint (digits false l' ≫= within_limit)
  end.

(** [int(s)]: [None] stands for [ValueError]. *)
Definition int (s : string) : option Z :=
  match code_points (list_ascii_of_string s) with
  | Some cs =>
      match to_ascii_all cs with
      | Some l => int_of_chars l
      | None => None
      end
  | None => None
  end.

(** [str(n)] for an integer.  (CPython writes no integer of more than
    [max_str_digits] digits; no size of a picture comes near that.) *)
Definition str (n : Z) : string :=
  NilZero.string_of_int (Z.to_int n).

End Py.

(** ** [request.args] *)

(** [request.args.get(key)] *)
Definition args_get (args : gmap string string) (key : string) : option string :=
  args !! key.

(** [request.args.get(key, type=int)]: the conversion's [ValueError] is
    swallowed and the default [None] returned. *)
Definition args_get_int (args : gmap string string) (key : string) : option Z :=
  match args !! key with
  | Some s => Py.int s
  | None => None
  end.

(** [request.args.get(key, default, type=int)] *)
Definition args_get_int_default (args : gmap string string) (key : string)
    (dflt : Z) : Z :=
  match args !! key with
  | Some s => default dflt (Py.int s)
  | None => dflt
  end.

(** [int(request.args.get(key, default))]: here a bad value raises. *)
Definition int_of_arg (args : gmap string string) (key : string)
    (dflt : string) : result Z :=
  match Py.int (default dflt (args !! key)) with
  | Some n => Ok n
  | None => Raise ValueError
  end.

(** ** Events *)

Module Event.

(** Modelled from the spec: the [Event] model ([frigate/models.py]) is not
    among the sources.  The spec's data model gives it an identifier, a
    camera name, a label, start and end timestamps (unix epoch) and a zone
    set; the zone set is kept as the list of names it was written with. *)
Record t : Type := {
  id : string;
  camera : string;
  label : string;
  start_time : Z;
  end_time : Z;
  zones : list string
}.

End Event.

(** ** JSON text of a zone set *)

Module Json.

(** The double quote, character 34. *)
Definition dquote : ascii := ascii_of_N 34.

Definition hex_digit (n : N) : ascii :=
  if (n <? 10)%N then ascii_of_N (48 + n) else ascii_of_N (87 + n).

(** The escape [\uXXXX] of a 16-bit unit, its four digits in lower case. *)
Definition unicode_escape (c : N) : list ascii :=
  ["\"; "u"; hex_digit (c / 4096 mod 16); hex_digit (c / 256 mod 16);
   hex_digit (c / 16 mod 16); hex_digit (c mod 16)]%char.

(** [json.dumps] with its default [ensure_ascii], one character at a time:
    everything outside [' '..'~'], the quote and the backslash are escaped,
    and a character above U+FFFF is written as the two halves of its
    surrogate pair. *)
Definition escape_char (c : N) : list ascii :=
  if (c =? 34)%N then ["\"%char; dquote]
  else if (c =? 92)%N then ["\"; "\"]%char
  else if (c =? 10)%N then ["\"; "n"]%char
  else if (c =? 13)%N then ["\"; "r"]%char
  else if (c =? 9)%N then ["\"; "t"]%char
  else if (c =? 8)%N then ["\"; "b"]%char
  else if (c =? 12)%N then ["\"; "f"]%char
  else if (32 <=? c)%N && (c <=? 126)%N then [ascii_of_N c]
  else if (c <? 65536)%N then unicode_escape c
  else unicode_escape (55296 + (c - 65536) / 1024)
         ++ unicode_escape (56320 + (c - 65536) mod 1024).

(** The characters of a text.  Bytes that are not UTF-8, which no Python
    [str] is made of, are taken one by one. *)
Definition characters (s : string) : list N :=
  let bytes := list_ascii_of_string s in
  default (map N_of_ascii bytes) (Py.code_points bytes).

Definition quoted (s : string) : list ascii :=
  dquote :: concat (map escape_char (characters s)) ++ [dquote].

Fixpoint join (sep : list ascii) (items : list (list ascii)) : list ascii :=
  match items with
  | [] => []
  | [x] => x
  | x :: rest => x ++ sep ++ join sep rest
  end.

(** Modelled from the spec: the column [Event.zones] is declared in
    [frigate/models.py], which is not among the sources; the spec calls
    what the filter reads the serialized representation of the zone
    set.  It is the JSON array of the quoted names in SQLite's compact
    form: a comma and no blank between two names. *)
Definition zones_text (zs : list string) : list ascii :=
  "["%char :: join [","%char] (map quoted zs) ++ ["]"%char].

End Json.

(** ** SQLite's GLOB *)

Module Sqlite.

Definition in_range (lo x hi : ascii) : bool :=
  (N_of_ascii lo <=? N_of_ascii x)%N && (N_of_ascii x <=? N_of_ascii hi)%N.

(** [patternCompare] of SQLite with the GLOB settings: does the text [s]
    match the pattern [p]?  [*] stands for any run of characters, [?] for one
    character, [[...]] for one character of a set, which may start with [^]
    (complement), may hold []] as its first member and ranges [a-z]; a set
    that is never closed matches nothing.  The texts the handler compares
    are ASCII, where a character is a byte. *)
Fixpoint pattern_compare (p s : list ascii) {struct p} : bool :=
  match p with
  | [] => match s with [] => true | _ :: _ => false end
  | c :: p' =>
      if Ascii.eqb c "*" then
        (fix star (s : list ascii) : bool :=
           pattern_compare p' s
           || match s with [] => false | _ :: s' => star s' end) s
      else if Ascii.eqb c "?" then
        match s with [] => false | _ :: s' => pattern_compare p' s' end
      else if Ascii.eqb c "[" then
        match s with
        | [] => false
        | x :: s' =>
            let members :=
              fix members (invert : bool) (q : list ascii) (prior : option ascii)
                  (seen : bool) {struct q} : bool :=
                match q with
                | [] => false
                | c2 :: q' =>
                    if Ascii.eqb c2 "]"
                    then xorb seen invert && pattern_compare q' s'
                    else
                      match prior, q' with
                      | Some lo, hi :: q'' =>
                          if Ascii.eqb c2 "-" && negb (Ascii.eqb hi "]") then
                            members invert q'' None (seen || in_range lo x hi)
                          else members invert q' (Some c2) (seen || Ascii.eqb x c2)
                      | _, _ => members invert q' (Some c2) (seen || Ascii.eqb x c2)
                      end
                end in
            match p' with
            | c1 :: q1 =>
                if Ascii.eqb c1 "^" then
                  match q1 with
                  | c2 :: q2 =>
                      if Ascii.eqb c2 "]" then members true q2 None (Ascii.eqb x "]")
                      else members true q1 None false
                  | [] => false
                  end
                else if Ascii.eqb c1 "]" then members false q1 None (Ascii.eqb x "]")
                else members false p' None false
            | [] => false
            end
        end
      else
        match s with
        | [] => false
        | x :: s' => Ascii.eqb c x && pattern_compare p' s'
        end
  end.

(** Both arguments reach [patternCompare] as C strings, which end at their
    first NUL. *)
Fixpoint c_string (l : list ascii) : list ascii :=
  match l with
  | [] => []
  | c :: l' => if Ascii.eqb c zero then [] else c :: c_string l'
  end.

(** [SQLITE_MAX_LIKE_PATTERN_LENGTH]: a pattern of more bytes is refused
    when it is evaluated. *)
Definition max_pattern_length : Z := 50000.

(** [s GLOB p]; the refusal is "LIKE or GLOB pattern too complex". *)
Definition glob (p s : list ascii) : result bool :=
  if max_pattern_length <? Z.of_nat (length p) then Raise DatabaseError
  else Ok (pattern_compare (c_string p) (c_string s)).

(** The integers of SQLite and of the parameters bound to a statement. *)
Definition int64 (n : Z) : bool :=
  (- 2 ^ 63 <=? n) && (n <? 2 ^ 63).

(** The texts that are decimal integer literals of 64 bits, with their
    value.  SQLite converts these without loss when a TEXT value is bound
    where an integer is required (it also accepts a few more forms, such
    as blanks around the literal). *)
Definition integer_of_text (s : string) : option Z :=
  match NilZero.int_of_string s with
  | Some i => if int64 (Z.of_int i) then Some (Z.of_int i) else None
  | None => None
  end.

End Sqlite.

(** ** The query built by peewee *)

(** The expressions the handler puts in its [clauses] list. *)
Inductive expr : Type :=
| CameraEq (c : string)          (* Event.camera == camera *)
| LabelEq (l : string)           (* Event.label == label *)
| ZonesGlob (pat : list ascii)   (* Event.zones.cast('text') % pat *)
| StartGe (t : Z)                (* Event.start_time >= after *)
| StartLe (t : Z)                (* Event.start_time <= before *)
| TrueLit                        (* 1 == 1 *)
| And (a b : expr).              (* operator.and_ *)

(** The value of a condition on one row.  peewee's [%] is the LIKE operator,
    which its SQLite back end renders as GLOB; of a conjunction the right
    side is evaluated only where the left side holds. *)
Fixpoint holds (e : expr) (ev : Event.t) : result bool :=
  match e with
  | CameraEq c => Ok (String.eqb (Event.camera ev) c)
  | LabelEq l => Ok (String.eqb (Event.label ev) l)
  | ZonesGlob pat => Sqlite.glob pat (Json.zones_text (Event.zones ev))
  | StartGe t => Ok (t <=? Event.start_time ev)
  | StartLe t => Ok (Event.start_time ev <=? t)
  | TrueLit => Ok true
  | And a b =>
      match holds a ev with
      | Ok true => holds b ev
      | Ok false => Ok false
      | Raise x => Raise x
      end
  end.

(** The rows of the table that meet a condition, in the order of the
    table; the statement fails at the first row whose test fails. *)
Fixpoint where_rows (e : expr) (db : list Event.t) : result (list Event.t) :=
  match db with
  | [] => Ok []
  | ev :: rest =>
      match holds e ev with
      | Ok keep =>
          rows ← where_rows e rest;
          mret (if keep then ev :: rows else rows)
      | Raise x => Raise x
      end
  end.

(** Can the integers of a condition be bound to a statement?  The sqlite3
    module refuses one outside 64 bits with [OverflowError]. *)
Fixpoint bindable (e : expr) : bool :=
  match e with
  | StartGe t | StartLe t => Sqlite.int64 t
  | And a b => bindable a && bindable b
  | _ => true
  end.

(** [reduce(f, l)] of functools, for a list that is not empty. *)
Definition reduce {A : Type} (f : A -> A -> A) (l : list A) : option A :=
  match l with
  | [] => None
  | x :: rest => Some (fold_left f rest x)
  end.

(** What is handed to [.limit()]: the integer default or the raw text of the
    parameter. *)
Inductive limit_arg : Type :=
| LimitInt (n : Z)
| LimitText (s : string).

(** [ORDER BY start_time DESC]: an event comes before those that started
    no later. *)
Definition starts_no_earlier (a b : Event.t) : Prop :=
  Event.start_time b <= Event.start_time a.

#[global] Instance starts_no_earlier_dec a b : Decision (starts_no_earlier a b).
Proof. unfold starts_no_earlier. apply _. Defined.

(** [LIMIT n]: a negative [n] means no bound. *)
Definition sql_limit {A : Type} (n : Z) (l : list A) : list A :=
  if n <? 0 then l else take (Z.to_nat n) l.

(** Python's truth value of an optional text or integer parameter. *)
Definition truthy_text (o : option string) : option string :=
  match o with
  | Some s => if String.eqb s "" then None else Some s
  | None => None
  end.

Definition truthy_int (o : option Z) : option Z :=
  match o with
  | Some n => if n =? 0 then None else Some n
  | None => None
  end.

(** [if v: clauses.append(e v)] *)
Definition append_if {A : Type} (v : option A) (e : A -> expr)
    (clauses : list expr) : list expr :=
  match v with
  | Some a => clauses ++ [e a]
  | None => clauses
  end.

(** The pattern of the zone clause: star, quote, the name, quote, star. *)
Definition zone_pattern (zone : string) : list ascii :=
  "*"%char :: Json.dquote :: list_ascii_of_string zone ++ [Json.dquote; "*"%char].

Section EventQuery.

(** SQLite's conversion of a TEXT value bound to LIMIT into an integer;
    [None] when the text has no lossless integer value, in which case the
    statement fails. *)
Variable sql_integer : string -> option Z.

Definition limit_value (l : limit_arg) : result Z :=
  match l with
  | LimitInt n => Ok n
  | LimitText s =>
      match sql_integer s with
      | Some n => Ok n
      | None => Raise DatabaseError
      end
  end.

(** [Event.select().where(e).order_by(Event.start_time.desc()).limit(l)],
    run: the parameters are bound, the limit is taken, and unless it is 0
    the table is scanned, sorted and cut. *)
Definition select_where_order_limit (db : list Event.t) (e : expr)
    (l : limit_arg) : result (list Event.t) :=
  if bindable e then
    n ← limit_value l;
    if n =? 0 then mret []
    else
      rows ← where_rows e db;
      mret (sql_limit n (merge_sort starts_no_earlier rows))
  else Raise OverflowError.

(** The handler of [/events]. *)
Definition events (db : list Event.t) (args : gmap string string)
    : result (list Event.t) :=
  let limit := match args !! "limit"%string with
               | Some s => LimitText s
               | None => LimitInt 100
               end in
  let camera := args_get args "camera" in
  let label := args_get args "label" in
  let zone := args_get args "zone" in
  let after := args_get_int args "after" in
  let before := args_get_int args "before" in
  let clauses := [] in
  let clauses := append_if (truthy_text camera) CameraEq clauses in
  let clauses := append_if (truthy_text label) LabelEq clauses in
  let clauses := append_if (truthy_text zone)
                   (fun z => ZonesGlob (zone_pattern z)) clauses in
  let clauses := append_if (truthy_int after) StartGe clauses in
  let clauses := append_if (truthy_int before) StartLe clauses in
  let clauses := if (length clauses =? 0)%nat then clauses ++ [TrueLit]
                 else clauses in
  match reduce And clauses with
  | Some e => select_where_order_limit db e limit
  | None => Raise TypeError
  end.

End EventQuery.

(** ** Frames and the image library *)

(** A decoded image: [shape[0]], [shape[1]], and whether every pixel is
    zero. *)
Record Frame : Type := {
  rows : Z;
  cols : Z;
  blank : bool
}.

Definition frame_empty (f : Frame) : bool :=
  (rows f <=? 0) || (cols f <=? 0).

(** The sizes a request may choose are followed as far as a picture of
    that many pixels a side: such a picture is one numpy allocates (192 MiB
    at three bytes a pixel), OpenCV scales and the JPEG codec writes (its
    sides end at 65535).  What the calls below give for larger pictures is
    not relied on where a request chooses the size. *)
Definition max_side : Z := 8192.

(** OpenCV keeps the sizes of a matrix in C ints. *)
Definition int_max : Z := 2 ^ 31 - 1.

(** [np.zeros((h, w, 3), np.uint8)]: a negative dimension is refused. *)
Definition np_zeros (h w : Z) : result Frame :=
  if (h <? 0) || (w <? 0) then Raise ValueError
  else Ok {| rows := h; cols := w; blank := true |}.

(** [cv2.cvtColor(f, cv2.COLOR_YUV2BGR_I420)]: the planar input holds the
    luma rows followed by half as many chroma rows, so it must have an even
    width and a height divisible by 3; it is a matrix of OpenCV, whose
    sizes are C ints. *)
Definition cvtColor_yuv2bgr_i420 (f : Frame) : result Frame :=
  if frame_empty f || (int_max <? rows f) || (int_max <? cols f)
     || negb (cols f mod 2 =? 0) || negb (rows f mod 3 =? 0)
  then Raise Cv2Error
  else Ok {| rows := rows f * 2 / 3; cols := cols f; blank := false |}.

(** The bounds of the Python slice [a:b] on a sequence of length [n]. *)
Definition slice_bound (a n : Z) : Z :=
  if a <? 0 then Z.max (a + n) 0 else Z.min a n.

Definition slice_len (a b n : Z) : Z :=
  Z.max (slice_bound b n - slice_bound a n) 0.

(** [f[y1:y2, x1:x2]] *)
Definition crop_frame (f : Frame) (region : Z * Z * Z * Z) : Frame :=
  let '(x1, y1, x2, y2) := region in
  {| rows := slice_len y1 y2 (rows f);
     cols := slice_len x1 x2 (cols f);
     blank := blank f |}.

(** [int(a / b)] on integers: the true quotient truncated toward zero.
    Python takes the quotient in double precision, which truncates to the
    same integer as long as [a] and [b] are below [2^53] in size, as the
    products of two sides of pictures are. *)
Definition int_truediv (a b : Z) : result Z :=
  if b =? 0 then Raise ZeroDivisionError else Ok (a ÷ b).

(** [cv2.resize(f, dsize=(w, h))]: the source and the target size must not
    be empty, and the target size is a pair of C ints.  (What comes of sides
    above [max_side] is not relied on.) *)
Definition cv2_resize (f : Frame) (w h : Z) : result Frame :=
  if frame_empty f || (w <=? 0) || (h <=? 0)
     || (int_max <? w) || (int_max <? h)
  then Raise Cv2Error
  else Ok {| rows := h; cols := w; blank := blank f |}.

(** The JPEG bytes of a frame; only the picture they hold matters. *)
Inductive jpeg : Type := Jpeg (f : Frame).

(** [cv2.imencode('.jpg', f)] followed by [jpg.tobytes()].  (What comes of
    sides above [max_side] is not relied on.) *)
Definition cv2_imencode (f : Frame) : result jpeg :=
  if frame_empty f then Raise Cv2Error else Ok (Jpeg f).

(** ** Python floats *)

(** The integer nearest to a rational, a tie going to the even one. *)
Definition round_half_even (q : Q) : Z :=
  let f := Qfloor q in
  match (q - inject_Z f ?= 1 # 2)%Q with
  | Lt => f
  | Gt => f + 1
  | Eq => if Z.even f then f else f + 1
  end.

Module Double.

(** The binary64 format. *)
Definition prec : Z := 53.
Definition emax : Z := 1024.

(** [float(n)] of an integer. *)
Definition of_int (n : Z) : spec_float := binary_normalize prec emax n 0 false.

(** [x + y] and [x * y] on floats. *)
Definition add (x y : spec_float) : spec_float := SFadd prec emax x y.

Definition mul (x y : spec_float) : spec_float := SFmul prec emax x y.

(** [a / b] on integers, [b] not zero: the double nearest to the quotient
    (which is never out of range for the quotients taken here). *)
Definition true_div (a b : Z) : spec_float :=
  let negative := xorb (a <? 0) (b <? 0) in
  if a =? 0 then S754_zero negative
  else
    let '(q, e, l) := SFdiv_core_binary prec emax (Z.abs a) 0 (Z.abs b) 0 in
    binary_round_aux prec emax negative q e l.

(** The number a finite double stands for, without its sign and with it. *)
Definition magnitude (x : spec_float) : Q :=
  match x with
  | S754_finite _ m e =>
      if 0 <=? e then inject_Z (Z.pos m * 2 ^ e)
      else Z.pos m # Z.to_pos (2 ^ (- e))
  | _ => 0
  end.

Definition value (x : spec_float) : Q :=
  match x with
  | S754_finite true _ _ => (- magnitude x)%Q
  | _ => magnitude x
  end.

(** [x < 0] *)
Definition negative (x : spec_float) : bool := SFltb x (S754_zero false).

(** [round(x, 2)]: the number is rounded to the nearest hundredth, a tie
    going to the even one, and the double nearest to that is returned; the
    sign is kept, and what is not finite is returned as it is. *)
Definition round2 (x : spec_float) : spec_float :=
  match x with
  | S754_finite s _ _ =>
      let r := round_half_even (magnitude x * 100) in
      if r =? 0 then S754_zero s else true_div (if s then - r else r) 100
  | _ => x
  end.

(** The sum [0 + x1 + ... + xn], taken from the left. *)
Definition sum (l : list spec_float) : spec_float :=
  fold_left add l (of_int 0).

End Double.

(** ** The application context *)

(** What [get_best(camera, label)] returns: a dictionary that may hold a
    frame and a region [x1, y1, x2, y2], and is empty when nothing was
    tracked. *)
Record BestObject : Type := {
  best_frame : option Frame;
  best_region : option (Z * Z * Z * Z)
}.

(** The gauges of a camera are shared doubles, read through [.value]. *)
Record CameraMetrics : Type := {
  camera_fps : spec_float;
  process_fps : spec_float;
  skipped_fps : spec_float;
  detection_fps : spec_float;
  process_pid : Z;
  capture_pid : Z
}.

Record Detector : Type := {
  avg_inference_speed : spec_float;
  detection_start : spec_float;
  detect_pid : Z
}.

(** [current_app]: the attributes set by [create_app].  The two metric
    dictionaries are kept as their items in iteration order. *)
Record App : Type := {
  config_cameras : gset string;
  camera_metrics : list (string * CameraMetrics);
  detectors : list (string * Detector);
  get_best : string -> string -> BestObject;
  get_current_frame : string -> option Frame
}.

(** ** Responses *)

Inductive response : Type :=
| Image (status : Z) (body : jpeg)                    (* image/jpg *)
| Text (status : Z) (body : string)                   (* text with a status *)
| Multipart (camera_name : string) (fps height : Z).  (* a body produced by imagestream *)

Definition camera_not_found (camera_name : string) : response :=
  Text 404 ("Camera named " +:+ camera_name +:+ " not found").

(** ** best.jpg and latest.jpg *)

Definition default_region : Z * Z * Z * Z := (0, 0, 300, 300).

(** The handler of [/<camera_name>/<label>/best.jpg]. *)
Definition best (app : App) (camera_name label : string)
    (args : gmap string string) : result response :=
  if bool_decide (camera_name ∈ config_cameras app) then
    let best_object := get_best app camera_name label in
    frame ← match best_frame best_object with
            | None => np_zeros 720 1280
            | Some f => cvtColor_yuv2bgr_i420 f
            end;
    let crop := negb (args_get_int_default args "crop" 0 =? 0) in
    let frame :=
      if crop then
        crop_frame frame (default default_region (best_region best_object))
      else frame in
    height ← int_of_arg args "h" (Py.str (rows frame));
    width ← int_truediv (height * cols frame) (rows frame);
    frame ← cv2_resize frame width height;
    jpg ← cv2_imencode frame;
    mret (Image 200 jpg)
  else mret (camera_not_found camera_name).

(** The handler of [/<camera_name>/latest.jpg]. *)
Definition latest_frame (app : App) (camera_name : string)
    (args : gmap string string) : result response :=
  if bool_decide (camera_name ∈ config_cameras app) then
    frame ← match get_current_frame app camera_name with
            | None => np_zeros 720 1280
            | Some f => Ok f
            end;
    height ← int_of_arg args "h" (Py.str (rows frame));
    width ← int_truediv (height * cols frame) (rows frame);
    frame ← cv2_resize frame width height;
    jpg ← cv2_imencode frame;
    mret (Image 200 jpg)
  else mret (camera_not_found camera_name).

(** ** The MJPEG stream *)

(** The handler of [/<camera_name>]: both parameters are converted before
    the camera is looked up. *)
Definition mjpeg_feed (app : App) (camera_name : string)
    (args : gmap string string) : result response :=
  fps ← int_of_arg args "fps" "3";
  height ← int_of_arg args "h" "360";
  if bool_decide (camera_name ∈ config_cameras app) then
    mret (Multipart camera_name fps height)
  else mret (camera_not_found camera_name).

(** What one stream does, in order. *)
Inductive action : Type :=
| Sleep (seconds : Q)     (* time.sleep returned after that long at least *)
| Fetch                   (* get_current_frame(camera_name, draw=True) *)
| Yield (chunk : jpeg).   (* one multipart chunk handed to the client *)

(** [time.sleep(1/fps)]: the quotient is a double, and a negative one is
    refused.  (Below [-2^1075] the quotient is the double [-0.0], which is
    not.) *)
Definition sleep_interval (fps : Z) : result Q :=
  if fps =? 0 then Raise ZeroDivisionError
  else
    let secs := Double.true_div 1 fps in
    if Double.negative secs then Raise ValueError
    else Ok (Double.value secs).

(** What follows the fetch in one turn of the loop. *)
Definition render (height : Z) (fetched : option Frame) : result jpeg :=
  frame ← match fetched with
          | None => w ← int_truediv (height * 16) 9; np_zeros height w
          | Some f => Ok f
          end;
  width ← int_truediv (height * cols frame) (rows frame);
  frame ← cv2_resize frame width height;
  cv2_imencode frame.

(** One turn of [while True]: the actions done, and the exception that ended
    the turn if there was one. *)
Definition imagestream_turn (fps height : Z) (fetched : option Frame)
    : list action * option exn :=
  match sleep_interval fps with
  | Raise e => ([], Some e)
  | Ok d =>
      match render height fetched with
      | Raise e => ([Sleep d; Fetch], Some e)
      | Ok jpg => ([Sleep d; Fetch; Yield jpg], None)
      end
  end.

(** The generator run for at most [n] turns; [source i] is what the frame
    processor holds when turn [i] fetches.  An exception ends the
    generator. *)
Fixpoint imagestream (fps height : Z) (source : nat -> option Frame)
    (n : nat) : list action * option exn :=
  match n with
  | O => ([], None)
  | S n' =>
      match imagestream_turn fps height (source O) with
      | (acts, Some e) => (acts, Some e)
      | (acts, None) =>
          let '(rest, e) := imagestream fps height (fun i => source (S i)) n' in
          (acts ++ rest, e)
      end
  end.

(** The chunks handed out by a run. *)
Definition yielded (acts : list action) : list jpeg :=
  omap (fun a => match a with Yield j => Some j | _ => None end) acts.

(** ** /stats *)

Record CameraStats : Type := {
  stat_camera_fps : spec_float;
  stat_process_fps : spec_float;
  stat_skipped_fps : spec_float;
  stat_detection_fps : spec_float;
  stat_pid : Z;
  stat_capture_pid : Z
}.

Record DetectorStats : Type := {
  stat_inference_speed : spec_float;
  stat_detection_start : spec_float;
  stat_detect_pid : Z
}.

(** The values of the top-level [stats] dictionary.  (With no camera the
    total is the integer 0, kept here as the double 0.) *)
Inductive stat_value : Type :=
| OfCamera (c : CameraStats)
| OfDetectors (d : gmap string DetectorStats)
| OfTotal (q : spec_float).

Definition camera_entry (m : CameraMetrics) : CameraStats :=
  {| stat_camera_fps := Double.round2 (camera_fps m);
     stat_process_fps := Double.round2 (process_fps m);
     stat_skipped_fps := Double.round2 (skipped_fps m);
     stat_detection_fps := Double.round2 (detection_fps m);
     stat_pid := process_pid m;
     stat_capture_pid := capture_pid m |}.

Definition detector_entry (d : Detector) : DetectorStats :=
  {| stat_inference_speed :=
       Double.round2 (Double.mul (avg_inference_speed d) (Double.of_int 1000));
     stat_detection_start := detection_start d;
     stat_detect_pid := detect_pid d |}.

(** The first loop of [stats]: the running total and the dictionary. *)
Definition camera_loop (items : list (string * CameraMetrics))
    : spec_float * gmap string stat_value :=
  fold_left
    (fun '(total, stats) '(name, m) =>
       (Double.add total (detection_fps m),
        <[name := OfCamera (camera_entry m)]> stats))
    items (Double.of_int 0, ∅).

Definition detector_loop (items : list (string * Detector))
    : gmap string DetectorStats :=
  fold_left (fun ds '(name, d) => <[name := detector_entry d]> ds) items ∅.

(** The handler of [/stats]: the dictionary that is sent, and the
    application context as the handler leaves it. *)
Definition stats (app : App) : gmap string stat_value * App :=
  let '(total_detection_fps, stats) := camera_loop (camera_metrics app) in
  let stats := <["detectors"%string := OfDetectors (detector_loop (detectors app))]> stats in
  let stats := <["detection_fps"%string :=
                   OfTotal (Double.round2 total_detection_fps)]> stats in
  (stats, app).

(** ** Names and texts without special characters *)

(** The decimal digits. *)
Definition digit_char (c : ascii) : Prop :=
  is_Some (Py.digit c).

(** The characters GLOB gives a meaning to. *)
Definition is_meta (c : ascii) : bool :=
  Ascii.eqb c "*" || Ascii.eqb c "?" || Ascii.eqb c "[".

(** The characters that JSON writes as they are. *)
Definition plain_char (c : ascii) : bool :=
  let n := N_of_ascii c in
  (32 <=? n)%N && (n <=? 126)%N
  && negb (Ascii.eqb c Json.dquote) && negb (Ascii.eqb c "\").

Definition plain_name (s : string) : Prop :=
  Forall (fun c => plain_char c = true) (list_ascii_of_string s).

(** A queried zone name that GLOB reads letter by letter and to its end,
    and that cannot be taken for the text between two names: no wildcard,
    no NUL, no double quote and no comma. *)
Definition literal_query (s : string) : Prop :=
  Forall (fun c => is_meta c = false /\ c ≠ zero
                   /\ c ≠ Json.dquote /\ c ≠ ","%char)
    (list_ascii_of_string s).

(** A store whose zone names are written to the column as they are. *)
Definition plain_zones (db : list Event.t) : Prop :=
  Forall (fun ev => Forall plain_name (Event.zones ev)) db.

(** The pieces of a text between its double quotes. *)
Fixpoint fields (l : list ascii) : list (list ascii) :=
  match l with
  | [] => [[]]
  | c :: l' =>
      if Ascii.eqb c Json.dquote then [] :: fields l'
      else match fields l' with
           | f :: fs => (c :: f) :: fs
           | [] => [[c]]
           end
  end.

(** The names of a zone set with a comma between each two. *)
Fixpoint between (zs : list (list ascii)) : list (list ascii) :=
  match zs with
  | [] => []
  | [z] => [z]
  | z :: rest => z :: [","%char] :: between rest
  end.

(** ** The filter configuration of /events *)

(** What the handler hands to [.limit()]. *)
Definition limit_of (args : gmap string string) : limit_arg :=
  match args !! "limit"%string with
  | Some s => LimitText s
  | None => LimitInt 100
  end.

(** The clauses the handler collects, and the condition it makes of
    them. *)
Definition clause_list (args : gmap string string) : list expr :=
  append_if (truthy_int (args !! "before"%string ≫= Py.int)) StartLe
    (append_if (truthy_int (args !! "after"%string ≫= Py.int)) StartGe
       (append_if (truthy_text (args !! "zone"%string))
          (fun z => ZonesGlob (zone_pattern z))
          (append_if (truthy_text (args !! "label"%string)) LabelEq
             (append_if (truthy_text (args !! "camera"%string)) CameraEq
                [])))).

Definition condition (args : gmap string string) : expr :=
  match clause_list args with
  | [] => TrueLit
  | e :: rest => fold_left And rest e
  end.

(** The value of a condition none of whose patterns is refused. *)
Fixpoint value (e : expr) (ev : Event.t) : bool :=
  match e with
  | CameraEq c => String.eqb (Event.camera ev) c
  | LabelEq l => String.eqb (Event.label ev) l
  | ZonesGlob pat =>
      Sqlite.pattern_compare (Sqlite.c_string pat)
        (Sqlite.c_string (Json.zones_text (Event.zones ev)))
  | StartGe t => t <=? Event.start_time ev
  | StartLe t => Event.start_time ev <=? t
  | TrueLit => true
  | And a b => value a ev && value b ev
  end.

Fixpoint patterns_fit (e : expr) : bool :=
  match e with
  | ZonesGlob pat => Z.of_nat (length pat) <=? Sqlite.max_pattern_length
  | And a b => patterns_fit a && patterns_fit b
  | _ => true
  end.

(** The zone test of the handler, on its own. *)
Definition zone_matches (zone : string) (ev : Event.t) : bool :=
  value (ZonesGlob (zone_pattern zone)) ev.

(** The filter configuration of a request as the spec reads it: every
    option that is supplied must hold of the event, the zone option by
    membership in the zone set of the event. *)
Definition spec_satisfies (args : gmap string string) (ev : Event.t) : bool :=
  from_option (fun c => String.eqb (Event.camera ev) c) true (args !! "camera"%string)
  && from_option (fun l => String.eqb (Event.label ev) l) true (args !! "label"%string)
  && from_option (fun z => bool_decide (z ∈ Event.zones ev)) true
       (args !! "zone"%string)
  && from_option (fun t => t <=? Event.start_time ev) true
       (args !! "after"%string ≫= Py.int)
  && from_option (fun t => Event.start_time ev <=? t) true
       (args !! "before"%string ≫= Py.int).

(** A text option that is supplied is not empty. *)
Definition text_supplied_ok (o : option string) : Prop :=
  o ≠ Some ""%string.

(** The pattern made of a zone name is one SQLite evaluates: the name has
    at most 49996 bytes. *)
Definition pattern_fits (zone : string) : Prop :=
  Z.of_nat (String.length zone) + 4 <= Sqlite.max_pattern_length.

(** A zone that is supplied is a name read letter by letter. *)
Definition zone_supplied_ok (o : option string) : Prop :=
  forall z, o = Some z ->
    z ≠ ""%string /\ literal_query z /\ pattern_fits z.

(** A time bound that is supplied is an integer of 64 bits other than
    zero. *)
Definition bound_supplied_ok (o : option string) : Prop :=
  forall s, o = Some s ->
    exists t, Py.int s = Some t /\ t ≠ 0 /\ Sqlite.int64 t = true.

(** The time bounds of a request, where they are integers, are of 64
    bits. *)
Definition bounds_bindable (args : gmap string string) : Prop :=
  forall key s t,
    key = "after"%string \/ key = "before"%string ->
    args !! key = Some s -> Py.int s = Some t -> Sqlite.int64 t = true.

Definition filters_ok (args : gmap string string) : Prop :=
  text_supplied_ok (args !! "camera"%string)
  /\ text_supplied_ok (args !! "label"%string)
  /\ zone_supplied_ok (args !! "zone"%string)
  /\ bound_supplied_ok (args !! "after"%string)
  /\ bound_supplied_ok (args !! "before"%string).

Definition no_filters (args : gmap string string) : Prop :=
  args !! "camera"%string = None /\ args !! "label"%string = None
  /\ args !! "zone"%string = None /\ args !! "after"%string = None
  /\ args !! "before"%string = None.

(** The limit in force: 100 unless the parameter is supplied. *)
Definition limit_in_force (sql_integer : string -> option Z)
    (args : gmap string string) (n : Z) : Prop :=
  match args !! "limit"%string with
  | None => n = 100
  | Some s => sql_integer s = Some n
  end.

(** What the handler's clauses amount to. *)
Definition clauses_hold (args : gmap string string) (ev : Event.t) : bool :=
  from_option (fun c => String.eqb (Event.camera ev) c) true
    (truthy_text (args !! "camera"%string))
  && from_option (fun l => String.eqb (Event.label ev) l) true
       (truthy_text (args !! "label"%string))
  && from_option (fun z => zone_matches z ev) true
       (truthy_text (args !! "zone"%string))
  && from_option (fun t => t <=? Event.start_time ev) true
       (truthy_int (args !! "after"%string ≫= Py.int))
  && from_option (fun t => Event.start_time ev <=? t) true
       (truthy_int (args !! "before"%string ≫= Py.int)).

(** ** The two halves of an image handler *)

(** What [best] and [latest_frame] both do once they hold a frame. *)
Definition serve_frame (args : gmap string string) (frame : Frame)
    : result response :=
  height ← int_of_arg args "h" (Py.str (rows frame));
  width ← int_truediv (height * cols frame) (rows frame);
  frame ← cv2_resize frame width height;
  jpg ← cv2_imencode frame;
  mret (Image 200 jpg).

(** The frame [best] works on before any crop: the best frame converted, or
    the placeholder. *)
Definition best_picture (o : BestObject) : result Frame :=
  match best_frame o with
  | None => np_zeros 720 1280
  | Some f => cvtColor_yuv2bgr_i420 f
  end.

(** The crop switch of [best.jpg]. *)
Definition crop_requested (args : gmap string string) : bool :=
  negb (args_get_int_default args "crop" 0 =? 0).

(** The height a request asks for: the value of [h], or the height of the
    frame at hand when [h] is absent. *)
Definition requested_height (args : gmap string string) (frame_rows h : Z)
    : Prop :=
  match args !! "h"%string with
  | None => h = frame_rows
  | Some s => Py.int s = Some h
  end.

(** The placeholder of [best.jpg] and [latest.jpg]. *)
Definition placeholder : Frame :=
  {| rows := 720; cols := 1280; blank := true |}.

(** The quotient [a / b] rounded to the nearest integer. *)
Definition round_div (a b : Z) : Z :=
  round_half_even (a # Z.to_pos b).

(** ** Traces of a stream *)

(** The interval asked for: the double [1/fps], as a number. *)
Definition interval (fps : Z) : Q := Double.value (Double.true_div 1 fps).

(** The trace in which each chunk is handed out after a sleep of [d] and a
    fetch. *)
Definition paced (d : Q) (chunks : list jpeg) : list action :=
  concat (map (fun j => [Sleep d; Fetch; Yield j]) chunks).

(** The time spent asleep in a stretch of a trace: a lower bound of the time
    the stretch takes. *)
Fixpoint slept (acts : list action) : Q :=
  match acts with
  | [] => 0
  | Sleep d :: rest => d + slept rest
  | _ :: rest => slept rest
  end.

(** A picture whose sides are within [max_side]. *)
Definition sized (f : Frame) : Prop :=
  0 < rows f <= max_side /\ 0 < cols f <= max_side.

(** A frame can be scaled to a height: both are sized, and so is the
    outcome, with at least one pixel of width. *)
Definition scales_to (f : Frame) (h : Z) : Prop :=
  sized f /\ 0 < h <= max_side
  /\ rows f <= h * cols f /\ h * cols f ÷ rows f <= max_side.

(** Every frame the processor hands out can be scaled to the height of the
    stream, and so can the placeholder of 16 to 9. *)
Definition scalable (height : Z) (source : nat -> option Frame) : Prop :=
  height * 16 ÷ 9 <= max_side
  /\ forall i f, source i = Some f -> scales_to f height.

(** ** Rates *)



(** ** Sample data *)

Module Sample.

Definition ev (id camera label : string) (start : Z) (zones : list string)
    : Event.t :=
  {| Event.id := id; Event.camera := camera; Event.label := label;
     Event.start_time := start; Event.end_time := start + 10;
     Event.zones := zones |}.

Definition ev1 : Event.t := ev "e1" "front" "person" 1000 ["yard"]%string.
Definition ev2 : Event.t := ev "e2" "front" "car" 2000 ["street"; "yard"]%string.
Definition ev3 : Event.t := ev "e3" "back" "person" 3000 []%string.
Definition ev4 : Event.t := ev "e4" "back" "dog" 4000 ["backyard"]%string.

Definition db : list Event.t := [ev1; ev2; ev3; ev4].

Definition ev5 : Event.t := ev "e5" "side" "cat" 5000 ["north*"]%string.

(** Two cameras; [front] has a live frame and a tracked person, [back]
    has nothing yet. *)
Definition live : Frame := {| rows := 720; cols := 1280; blank := false |}.
Definition portrait : Frame := {| rows := 1280; cols := 720; blank := false |}.
Definition yuv : Frame := {| rows := 1080; cols := 1280; blank := false |}.

Definition metrics (detection : spec_float) : CameraMetrics :=
  {| camera_fps := Double.of_int 5; process_fps := Double.of_int 5;
     skipped_fps := Double.of_int 0; detection_fps := detection;
     process_pid := 41; capture_pid := 42 |}.

(** The doubles 0.004 and 0.01. *)
Definition four_thousandths : spec_float := Double.true_div 4 1000.
Definition one_hundredth : spec_float := Double.true_div 1 100.

Definition app : App :=
  {| config_cameras := {[ "front"; "back"; "hall" ]}%string;
     camera_metrics := [("front", metrics four_thousandths);
                        ("back", metrics four_thousandths)]%string;
     detectors := [("cpu", {| avg_inference_speed := one_hundredth;
                              detection_start := Double.of_int 0;
                              detect_pid := 7 |})]%string;
     get_best := fun camera label =>
       if String.eqb camera "front" && String.eqb label "person"
       then {| best_frame := Some yuv; best_region := Some (100, 50, 500, 450) |}
       else {| best_frame := None; best_region := None |};
     get_current_frame := fun camera =>
       if String.eqb camera "front" then Some live
       else if String.eqb camera "hall" then Some portrait
       else None |}.

(** [/events?camera=front&limit=1] *)
Definition front_one : gmap string string :=
  {[ "camera" := "front"; "limit" := "1" ]}%string.

End Sample.

(** ** Single events *)

(** [Event.get(Event.id == id)]: the first stored event with the
    identifier; [None] stands for [DoesNotExist]. *)
Definition event_get (db : list Event.t) (id : string) : option Event.t :=
  List.find (fun ev => String.eqb (Event.id ev) id) db.

Inductive event_response : Type :=
| EventJson (ev : Event.t)                   (* model_to_dict(...) *)
| EventText (status : Z) (body : string).

(** The handler of [/events/<id>]. *)
Definition event (db : list Event.t) (id : string) : event_response :=
  match event_get db id with
  | Some ev => EventJson ev
  | None => EventText 404 "Event not found"
  end.

(** A tracked object, as far as the snapshot route uses it: the call
    [get_jpg_bytes()], which may raise. *)
Record TrackedObject : Type := {
  get_jpg_bytes : result (list Byte.byte)
}.

(** A camera state: its dictionary [tracked_objects]; a key may be bound to
    [None]. *)
Record CameraState : Type := {
  tracked_objects : gmap string (option TrackedObject)
}.

Inductive snapshot_response : Type :=
| SnapshotJpg (body : list Byte.byte)        (* image/jpg *)
| SnapshotText (status : Z) (body : string).

Section Snapshot.

(** The thumbnail column of a stored event, which the record [Event.t] does
    not carry, and [base64.b64decode], which may raise. *)
Variable thumbnail : Event.t -> string.
Variable b64decode : string -> result (list Byte.byte).

(** The loop over [camera_states.values()]: the bytes of the first tracked
    object found under the identifier, [None] when the loop ends without
    one. *)
Fixpoint tracked_jpg (states : list CameraState) (id : string)
    : result (option (list Byte.byte)) :=
  match states with
  | [] => Ok None
  | camera_state :: rest =>
      match tracked_objects camera_state !! id with
      | Some (Some tracked_obj) =>
          jpg ← get_jpg_bytes tracked_obj; Ok (Some jpg)
      | Some None | None => tracked_jpg rest id
      end
  end.

(** The handler of [/events/<id>/snapshot.jpg].  The bare [except] of the
    fallback turns every exception of the loop into the 404 answer. *)
Definition event_snapshot (db : list Event.t) (states : list CameraState)
    (id : string) : result snapshot_response :=
  match event_get db id with
  | Some ev =>
      body ← b64decode (thumbnail ev);
      mret (SnapshotJpg body)
  | None =>
      match tracked_jpg states id with
      | Ok (Some jpg) => Ok (SnapshotJpg jpg)
      | Ok None => Ok (SnapshotText 404 "Event not found")
      | Raise _ => Ok (SnapshotText 404 "Event not found")
      end
  end.

End Snapshot.

(** ** The summary of events *)

Section Summary.

(** [strftime('%Y-%m-%d', datetime(start_time, 'unixepoch', 'localtime'))]:
    the calendar day of a timestamp in the time zone of the server. *)
Variable local_day : Z -> string.

(** The four columns of [group_by]: camera, label, day and the stored text
    of the zones. *)
Definition group_key (ev : Event.t) : string * string * string * string :=
  (Event.camera ev, Event.label ev, local_day (Event.start_time ev),
   string_of_list_ascii (Json.zones_text (Event.zones ev))).

(** One more row in the group of its key. *)
Definition count_row (groups : gmap (string * string * string * string) nat)
    (ev : Event.t) : gmap (string * string * string * string) nat :=
  <[group_key ev := S (default 0%nat (groups !! group_key ev))]> groups.

(** [GROUP BY] with [COUNT(Event.id)]. *)
Definition group_counts (db : list Event.t)
    : gmap (string * string * string * string) nat :=
  fold_left count_row db ∅.

(** The handler of [/events/summary]: one row for each group, in the order
    the store hands them out. *)
Definition events_summary (db : list Event.t)
    : list (string * string * string * string * nat) :=
  map_to_list (group_counts db).

(** The number of stored events of a group. *)
Definition events_of_group (k : string * string * string * string)
    (db : list Event.t) : nat :=
  length (List.filter (fun ev => bool_decide (group_key ev = k)) db).

End Summary.

(** ** The connection around a request *)

(** The state of the database connection. *)
Inductive connection : Type := Closed | Opened.

(** [database.connect()]: a connection that is open is refused. *)
Definition connect (c : connection) : result connection :=
  match c with
  | Closed => Ok Opened
  | Opened => Raise DatabaseError
  end.

Definition is_closed (c : connection) : bool :=
  match c with Closed => true | Opened => false end.

Definition close (c : connection) : connection := Closed.

(** The hook [before_request] of [create_app]. *)
Definition _db_connect (c : connection) : result connection := connect c.

(** The hook [teardown_request] of [create_app]. *)
Definition _db_close (c : connection) : connection :=
  if negb (is_closed c) then close c else c.

(** One request as Flask runs it: the hook before the view, the view unless
    the hook raised, and the teardown hook in every case. *)
Definition serve {A : Type} (c : connection) (view : result A)
    : connection * result A :=
  match _db_connect c with
  | Ok c' => (_db_close c', view)
  | Raise e => (_db_close c, Raise e)
  end.

(** Requests one after the other. *)
Fixpoint serve_all {A : Type} (c : connection) (views : list (result A))
    : connection * list (result A) :=
  match views with
  | [] => (c, [])
  | view :: rest =>
      let '(c', r) := serve c view in
      let '(c'', rs) := serve_all c' rest in
      (c'', r :: rs)
  end.

(** ** What a chunk of the stream shows *)

(** The picture a turn hands out for what it fetched: the frame, or the
    blank 16 to 9 placeholder, at the height of the stream. *)
Definition scaled (height : Z) (fetched : option Frame) : jpeg :=
  match fetched with
  | Some f =>
      Jpeg {| rows := height; cols := height * cols f ÷ rows f;
              blank := blank f |}
  | None =>
      Jpeg {| rows := height; cols := height * 16 ÷ 9; blank := true |}
  end.

(** ** More sample data *)

Module More.

Definition day (t : Z) : string := Py.str (t / 86400).

Definition thumbnail (ev : Event.t) : string := Event.id ev.

Definition b64decode (s : string) : result (list Byte.byte) :=
  if String.eqb s "" then Raise ValueError else Ok (list_byte_of_string s).

Definition tracked (s : string) : TrackedObject :=
  {| get_jpg_bytes := Ok (list_byte_of_string s) |}.

Definition states : list CameraState :=
  [ {| tracked_objects := {[ "t1"%string := None ]} |};
    {| tracked_objects := {[ "t1"%string := Some (tracked "one");
                             "t2"%string := Some (tracked "two") ]} |} ].


Definition flat_app : App :=
  {| config_cameras := {[ "front" ]}%string;
     camera_metrics := [];
     detectors := [];
     get_best := fun camera label =>
       {| best_frame := Some Sample.yuv;
          best_region := Some (100, 450, 500, 450) |};
     get_current_frame := fun camera => Some Sample.live |}.

End More.

(** * Properties *)

(** ** The event query *)

(** A decidable statement about concrete data, settled by evaluation. *)
Ltac by_computation :=
  match goal with
  | |- ?P => apply (bool_decide_unpack P); vm_compute; exact I
  end.

#[global] Instance starts_no_earlier_total : Total starts_no_earlier.
Proof. intros a b. unfold starts_no_earlier. lia. Qed.

#[global] Instance starts_no_earlier_trans : Transitive starts_no_earlier.
Proof. intros a b c. unfold starts_no_earlier. lia. Qed.

Lemma filter_ext_bool {A : Type} (f g : A -> bool) (l : list A) :
  (forall x, f x = g x) -> List.filter f l = List.filter g l.
Proof.
  intros Hfg. induction l as [|x l IH]; simpl; [done|].
  rewrite Hfg, IH. done.
Qed.

Lemma filter_ext_in {A : Type} (f g : A -> bool) (l : list A) :
  (forall x, In x l -> f x = g x) -> List.filter f l = List.filter g l.
Proof.
  induction l as [|x l IH]; simpl; [done|]. intros Hfg.
  rewrite (Hfg x) by (by left). rewrite IH; [done|].
  intros y Hy. apply Hfg. by right.
Qed.

Lemma filter_all_true {A : Type} (f : A -> bool) (l : list A) :
  (forall x, f x = true) -> List.filter f l = l.
Proof.
  intros Hf. induction l as [|x l IH]; simpl; [done|]. by rewrite Hf, IH.
Qed.

Lemma filter_sublist {A : Type} (f : A -> bool) (l : list A) :
  List.filter f l `sublist_of` l.
Proof.
  induction l as [|x l IH]; simpl; [done|].
  destruct (f x); by constructor.
Qed.

Lemma args_get_int_bind (args : gmap string string) (key : string) :
  args_get_int args key = args !! key ≫= Py.int.
Proof. unfold args_get_int. by destruct (args !! key). Qed.

(** The handler runs one query: the condition made of its clauses, under
    the limit it was given. *)
Lemma events_unfold sql_integer db (args : gmap string string) :
  events sql_integer db args
  = select_where_order_limit sql_integer db (condition args) (limit_of args).
Proof.
  unfold events, condition, clause_list, limit_of, args_get.
  rewrite !args_get_int_bind.
  destruct (truthy_text (args !! "camera"%string)),
           (truthy_text (args !! "label"%string)),
           (truthy_text (args !! "zone"%string)),
           (truthy_int (args !! "after"%string ≫= Py.int)),
           (truthy_int (args !! "before"%string ≫= Py.int));
    reflexivity.
Qed.

(** Two requests with the same clauses and the same limit have the same
    answer. *)
Lemma events_same sql_integer db (args args' : gmap string string) :
  clause_list args = clause_list args' -> limit_of args = limit_of args' ->
  events sql_integer db args = events sql_integer db args'.
Proof.
  intros Hclauses Hlimit. rewrite !events_unfold. unfold condition.
  by rewrite Hclauses, Hlimit.
Qed.

(** Where no pattern is refused, a condition has its value on every row. *)
Lemma holds_value (e : expr) (ev : Event.t) :
  patterns_fit e = true -> holds e ev = Ok (value e ev).
Proof.
  induction e as [c|l|pat|t|t| |a IHa b IHb]; cbn [patterns_fit holds value];
    try done.
  - intros Hfit. unfold Sqlite.glob.
    apply Z.leb_le in Hfit.
    by destruct (Z.ltb_spec Sqlite.max_pattern_length (Z.of_nat (length pat)));
      [lia|].
  - intros Hfit. apply andb_prop in Hfit as [Ha Hb].
    rewrite IHa, IHb by done. by destruct (value a ev).
Qed.

Lemma where_rows_value (e : expr) (db : list Event.t) :
  patterns_fit e = true -> where_rows e db = Ok (List.filter (value e) db).
Proof.
  intros Hfit. induction db as [|ev db IH]; [done|].
  cbn [where_rows List.filter]. rewrite holds_value, IH by done.
  by destruct (value e ev).
Qed.

(** The scan keeps the rows on which the condition holds, and raises
    nothing but the refusal of a pattern. *)
Lemma where_rows_inv (e : expr) (db rows : list Event.t) :
  where_rows e db = Ok rows ->
  rows `sublist_of` db /\ forall ev, In ev rows -> holds e ev = Ok true.
Proof.
  revert rows. induction db as [|ev db IH]; intros rows.
  - intros [= <-]. split; [done|]. by intros ev [].
  - cbn [where_rows]. destruct (holds e ev) as [keep|x] eqn:Hev; [|done].
    destruct (where_rows e db) as [rows'|x]; [|done]. simpl.
    destruct (IH rows' eq_refl) as [Hsub Hall]. intros [= <-].
    destruct keep.
    + split; [by constructor|]. intros ev' [<-|Hin]; [done|by apply Hall].
    + split; [by constructor|done].
Qed.

Lemma holds_raises (e : expr) (ev : Event.t) (x : exn) :
  holds e ev = Raise x -> x = DatabaseError.
Proof.
  induction e as [c|l|pat|t|t| |a IHa b IHb]; cbn [holds]; try done.
  - unfold Sqlite.glob. destruct (_ <? _); [|done]. by intros [= <-].
  - destruct (holds a ev) as [[|]|y]; [done|done|]. intros [= <-].
    by apply IHa.
Qed.

Lemma where_rows_raises (e : expr) (db : list Event.t) (x : exn) :
  where_rows e db = Raise x -> x = DatabaseError.
Proof.
  induction db as [|ev db IH]; [done|]. cbn [where_rows].
  destruct (holds e ev) as [keep|y] eqn:Hev.
  - destruct (where_rows e db) as [rows|y]; [done|]. simpl. intros [= <-].
    by apply IH.
  - intros [= <-]. by apply (holds_raises e ev).
Qed.

Lemma value_fold_and (rest : list expr) (e : expr) (ev : Event.t) :
  value (fold_left And rest e) ev
  = value e ev && forallb (fun c => value c ev) rest.
Proof.
  revert e. induction rest as [|c rest IH]; intros e; simpl.
  - by rewrite andb_true_r.
  - rewrite IH. simpl. by rewrite andb_assoc.
Qed.

(** The value of the condition of a request is [clauses_hold]. *)
Lemma value_condition (args : gmap string string) (ev : Event.t) :
  value (condition args) ev = clauses_hold args ev.
Proof.
  unfold condition, clause_list, clauses_hold, zone_matches.
  destruct (truthy_text (args !! "camera"%string)),
           (truthy_text (args !! "label"%string)),
           (truthy_text (args !! "zone"%string)),
           (truthy_int (args !! "after"%string ≫= Py.int)),
           (truthy_int (args !! "before"%string ≫= Py.int));
    cbn [append_if app fold_left value from_option];
    rewrite ?andb_true_r; reflexivity.
Qed.

Lemma limit_value_in_force sql_integer (args : gmap string string) (n : Z) :
  limit_in_force sql_integer args n ->
  limit_value sql_integer (limit_of args) = Ok n.
Proof.
  unfold limit_in_force, limit_of.
  destruct (args !! "limit"%string) as [s|]; simpl.
  - by intros ->.
  - by intros ->.
Qed.

Lemma sql_limit_zero {A : Type} (n : Z) (l : list A) :
  n = 0 -> sql_limit n l = [].
Proof. by intros ->. Qed.

(** An answer is the sorted rows of the scan, cut at the limit. *)
Lemma events_ok_inv sql_integer db (args : gmap string string)
    (l : list Event.t) :
  events sql_integer db args = Ok l ->
  exists n rows,
    limit_value sql_integer (limit_of args) = Ok n
    /\ rows `sublist_of` db
    /\ (forall ev, In ev rows -> holds (condition args) ev = Ok true)
    /\ l = sql_limit n (merge_sort starts_no_earlier rows).
Proof.
  rewrite events_unfold. unfold select_where_order_limit.
  destruct (bindable (condition args)); [|done].
  destruct (limit_value _ _) as [n|x]; [|done]. simpl.
  destruct (Z.eqb_spec n 0) as [->|Hn].
  - intros [= <-]. exists 0, []. split; [done|]. split; [apply sublist_nil_l|].
    split; [by intros ev []|done].
  - destruct (where_rows _ db) as [rows|x] eqn:Hrows; [|done]. simpl.
    intros [= <-]. apply where_rows_inv in Hrows as [Hsub Hall].
    by exists n, rows.
Qed.

(** The answer to a request whose integers can be bound and whose pattern is
    not refused. *)
Lemma events_answer sql_integer db (args : gmap string string) (n : Z) :
  bindable (condition args) = true -> patterns_fit (condition args) = true ->
  limit_in_force sql_integer args n ->
  events sql_integer db args
  = Ok (sql_limit n (merge_sort starts_no_earlier
                       (List.filter (clauses_hold args) db))).
Proof.
  intros Hbind Hfit Hlimit. rewrite events_unfold.
  unfold select_where_order_limit. rewrite Hbind.
  rewrite (limit_value_in_force _ _ n) by done. simpl.
  destruct (Z.eqb_spec n 0) as [->|Hn]; [done|].
  rewrite where_rows_value by done. simpl.
  by rewrite (filter_ext_bool _ _ _ (value_condition args)).
Qed.

Lemma sql_limit_split {A : Type} (n : Z) (l : list A) :
  exists rest,
    sql_limit n l ++ rest = l
    /\ (rest = [] \/ Z.of_nat (length (sql_limit n l)) = n)
    /\ (0 <= n -> Z.of_nat (length (sql_limit n l)) <= n).
Proof.
  unfold sql_limit. destruct (Z.ltb_spec n 0) as [Hneg|Hpos].
  - exists []. rewrite app_nil_r. split; [done|]. split; [by left|lia].
  - exists (drop (Z.to_nat n) l). rewrite take_drop. split; [done|].
    rewrite length_take. split; [|lia].
    destruct (decide (Z.to_nat n <= length l)%nat) as [Hle|Hgt].
    + right. lia.
    + left. apply drop_ge. lia.
Qed.

Lemma sql_limit_prefix {A : Type} (n : Z) (l : list A) :
  sql_limit n l `prefix_of` l.
Proof.
  unfold sql_limit. destruct (n <? 0); [done|]. apply prefix_take.
Qed.

Lemma sql_limit_sublist {A : Type} (n : Z) (l : list A) :
  sql_limit n l `sublist_of` l.
Proof.
  unfold sql_limit. destruct (n <? 0); [done|]. apply sublist_take.
Qed.

(** The most recent [n] of a list of events, with what the limit leaves
    out. *)
Lemma most_recent_split (n : Z) (all : list Event.t) :
  exists rest,
    sql_limit n (merge_sort starts_no_earlier all) ++ rest ≡ₚ all
    /\ StronglySorted starts_no_earlier
         (sql_limit n (merge_sort starts_no_earlier all) ++ rest)
    /\ (rest = []
        \/ Z.of_nat (length (sql_limit n (merge_sort starts_no_earlier all)))
           = n).
Proof.
  set (sorted := merge_sort starts_no_earlier all).
  destruct (sql_limit_split n sorted) as (rest & Happ & Hrest & _).
  exists rest. rewrite Happ. split; [apply merge_sort_Permutation|].
  split; [|done]. apply StronglySorted_merge_sort; apply _.
Qed.

Lemma truthy_text_ok (o : option string) :
  text_supplied_ok o -> truthy_text o = o.
Proof.
  unfold text_supplied_ok, truthy_text. destruct o as [s|]; [|done].
  intros Hs. destruct (String.eqb_spec s ""); congruence.
Qed.

Lemma truthy_zone_ok (o : option string) :
  zone_supplied_ok o -> truthy_text o = o.
Proof.
  intros Hz. apply truthy_text_ok. intros ->.
  by destruct (Hz ""%string eq_refl) as [Hne _].
Qed.

Lemma truthy_int_ok (o : option string) :
  bound_supplied_ok o -> truthy_int (o ≫= Py.int) = o ≫= Py.int.
Proof.
  unfold bound_supplied_ok. destruct o as [s|]; [|done].
  intros Hs. destruct (Hs s eq_refl) as (t & Ht & Hnz & _). simpl. rewrite Ht.
  simpl. destruct (Z.eqb_spec t 0); congruence.
Qed.

Lemma bound_int64 (o : option string) (t : Z) :
  bound_supplied_ok o -> truthy_int (o ≫= Py.int) = Some t ->
  Sqlite.int64 t = true.
Proof.
  intros Hs. rewrite truthy_int_ok by done. destruct o as [s|]; [|done].
  destruct (Hs s eq_refl) as (t' & Ht & _ & H64). simpl. rewrite Ht.
  by intros [= <-].
Qed.

Lemma zone_pattern_length (zone : string) :
  Z.of_nat (length (zone_pattern zone)) = Z.of_nat (String.length zone) + 4.
Proof.
  unfold zone_pattern. cbn [length]. rewrite length_app. cbn [length].
  assert (Hlen : length (list_ascii_of_string zone) = String.length zone).
  { induction zone as [|c zone IH]; simpl; [done|]. by rewrite IH. }
  rewrite Hlen. lia.
Qed.

Lemma bindable_fold_and (rest : list expr) (e : expr) :
  bindable (fold_left And rest e) = bindable e && forallb bindable rest.
Proof.
  revert e. induction rest as [|c rest IH]; intros e; simpl.
  - by rewrite andb_true_r.
  - rewrite IH. simpl. by rewrite andb_assoc.
Qed.

Lemma patterns_fit_fold_and (rest : list expr) (e : expr) :
  patterns_fit (fold_left And rest e)
  = patterns_fit e && forallb patterns_fit rest.
Proof.
  revert e. induction rest as [|c rest IH]; intros e; simpl.
  - by rewrite andb_true_r.
  - rewrite IH. simpl. by rewrite andb_assoc.
Qed.

(** The integers of a request can be bound when its time bounds, where they
    are integers, are of 64 bits. *)
Lemma bindable_condition (args : gmap string string) :
  bounds_bindable args -> bindable (condition args) = true.
Proof.
  intros Hbounds.
  assert (Hkey : forall key t,
    key = "after"%string \/ key = "before"%string ->
    truthy_int (args !! key ≫= Py.int) = Some t -> Sqlite.int64 t = true).
  { intros key t Hk. destruct (args !! key) as [s|] eqn:Hs; [|done]. simpl.
    destruct (Py.int s) as [t'|] eqn:Ht; [|done]. simpl.
    destruct (t' =? 0); [done|]. intros [= <-]. by apply (Hbounds key s). }
  pose proof (Hkey "after"%string) as Ha. pose proof (Hkey "before"%string) as Hb.
  unfold condition, clause_list.
  destruct (truthy_text (args !! "camera"%string)),
           (truthy_text (args !! "label"%string)),
           (truthy_text (args !! "zone"%string)),
           (truthy_int (args !! "after"%string ≫= Py.int)),
           (truthy_int (args !! "before"%string ≫= Py.int));
    cbn [append_if app fold_left bindable andb];
    rewrite ?(Ha _ (or_introl eq_refl) eq_refl),
            ?(Hb _ (or_intror eq_refl) eq_refl); reflexivity.
Qed.

(** No pattern of a request is refused when its zone, if any, is short
    enough. *)
Lemma patterns_fit_condition (args : gmap string string) :
  (forall z, args !! "zone"%string = Some z -> pattern_fits z) ->
  patterns_fit (condition args) = true.
Proof.
  intros Hzone.
  assert (Hz : forall z,
    truthy_text (args !! "zone"%string) = Some z ->
    (Z.of_nat (length (zone_pattern z)) <=? Sqlite.max_pattern_length)
    = true).
  { intros z. destruct (args !! "zone"%string) as [z'|]; [|done].
    cbn [truthy_text]. destruct (String.eqb z' ""); [done|]. intros [= <-].
    apply Z.leb_le. rewrite zone_pattern_length. by apply Hzone. }
  unfold condition, clause_list.
  destruct (truthy_text (args !! "camera"%string)),
           (truthy_text (args !! "label"%string)),
           (truthy_text (args !! "zone"%string)),
           (truthy_int (args !! "after"%string ≫= Py.int)),
           (truthy_int (args !! "before"%string ≫= Py.int));
    cbn [append_if app fold_left patterns_fit andb];
    rewrite ?(Hz _ eq_refl); reflexivity.
Qed.

Lemma filters_ok_bindable (args : gmap string string) :
  filters_ok args -> bindable (condition args) = true.
Proof.
  intros (_ & _ & _ & Ha & Hb). apply bindable_condition.
  intros key s t [-> | ->] Hs Ht.
  - destruct (Ha s Hs) as (t' & Ht' & _ & H64). congruence.
  - destruct (Hb s Hs) as (t' & Ht' & _ & H64). congruence.
Qed.

Lemma filters_ok_fit (args : gmap string string) :
  filters_ok args -> patterns_fit (condition args) = true.
Proof.
  intros (_ & _ & Hz & _ & _). apply patterns_fit_condition.
  intros z Hzone. by destruct (Hz z Hzone) as (_ & _ & Hfit).
Qed.

(** ** GLOB on patterns without wildcards *)

Lemma glob_star (p s : list ascii) :
  Sqlite.pattern_compare ("*"%char :: p) s =
    Sqlite.pattern_compare p s
    || match s with [] => false | _ :: s' => Sqlite.pattern_compare ("*"%char :: p) s' end.
Proof. destruct s; reflexivity. Qed.

Lemma glob_literal (c : ascii) (p s : list ascii) :
  is_meta c = false ->
  Sqlite.pattern_compare (c :: p) s =
    match s with [] => false | x :: s' => Ascii.eqb c x && Sqlite.pattern_compare p s' end.
Proof.
  unfold is_meta. intros Hc.
  apply orb_false_elim in Hc as [Hc H3]. apply orb_false_elim in Hc as [H1 H2].
  cbn [Sqlite.pattern_compare]. rewrite H1, H2, H3. reflexivity.
Qed.

Lemma glob_star_spec (p s : list ascii) :
  Sqlite.pattern_compare ("*"%char :: p) s = true
  <-> exists a b, s = a ++ b /\ Sqlite.pattern_compare p b = true.
Proof.
  induction s as [|x s IH]; rewrite glob_star, orb_true_iff.
  - split.
    + intros [H|H]; [|done]. by exists [], [].
    + intros (a & b & Hab & H). symmetry in Hab.
      apply app_eq_nil in Hab as [_ ->]. by left.
  - rewrite IH. split.
    + intros [H|(a & b & -> & H)].
      * by exists [], (x :: s).
      * by exists (x :: a), b.
    + intros (a & b & Hab & H). destruct a as [|y a]; simpl in Hab.
      * subst b. by left.
      * injection Hab as -> ->. right. by exists a, b.
Qed.

Lemma glob_literals_star (lits s : list ascii) :
  Forall (fun c => is_meta c = false) lits ->
  Sqlite.pattern_compare (lits ++ ["*"%char]) s = true <-> exists c, s = lits ++ c.
Proof.
  intros Hlits. revert s.
  induction Hlits as [|c lits Hc Hlits IH]; intros s; cbn [app].
  - split; [by exists s|]. intros _. apply glob_star_spec.
    exists s, []. by rewrite app_nil_r.
  - rewrite glob_literal by done. destruct s as [|x s].
    + split; [done|]. by intros (c' & Hc').
    + rewrite andb_true_iff, IH. split.
      * intros [Heq (c' & ->)]. apply Ascii.eqb_eq in Heq as ->. by exists c'.
      * intros (c' & Hc'). injection Hc' as -> ->. split.
        -- apply Ascii.eqb_refl.
        -- by exists c'.
Qed.

(** Between two stars, a pattern without wildcards is looked for
    anywhere in the text. *)
Lemma glob_infix (lits s : list ascii) :
  Forall (fun c => is_meta c = false) lits ->
  Sqlite.pattern_compare ("*"%char :: lits ++ ["*"%char]) s = true
  <-> exists a b, s = a ++ lits ++ b.
Proof.
  intros Hlits. rewrite glob_star_spec. split.
  - intros (a & b & -> & H). apply glob_literals_star in H as (c & ->); [|done].
    by exists a, c.
  - intros (a & b & ->). exists a, (lits ++ b). split; [done|].
    apply glob_literals_star; [done|]. by exists b.
Qed.

(** ** The text of a zone set, cut at its quotes *)

Lemma escape_plain (c : ascii) :
  plain_char c = true -> Json.escape_char (N_of_ascii c) = [c].
Proof.
  destruct c as [[] [] [] [] [] [] [] []]; vm_compute; congruence.
Qed.

Lemma plain_below_del (c : ascii) :
  plain_char c = true -> (N_of_ascii c <? 127)%N = true.
Proof.
  destruct c as [[] [] [] [] [] [] [] []]; vm_compute; congruence.
Qed.

(** A text of ASCII characters below DEL is parsed as it is. *)
Lemma code_points_ascii (l : list ascii) :
  Forall (fun c => (N_of_ascii c <? 127)%N = true) l ->
  Py.code_points l = Some (map N_of_ascii l).
Proof.
  induction 1 as [|c l Hc Hl IH]; [done|]. cbn [Py.code_points map].
  apply N.ltb_lt in Hc.
  destruct (N.ltb_spec (N_of_ascii c) 128) as [_|Hge]; [|lia].
  by rewrite IH.
Qed.

Lemma plain_not_quote (c : ascii) :
  plain_char c = true -> Ascii.eqb c Json.dquote = false.
Proof.
  unfold plain_char. intros H.
  apply andb_prop in H as [H _]. apply andb_prop in H as [_ H].
  by apply negb_true_iff in H.
Qed.

Lemma quoted_plain (s : string) :
  plain_name s ->
  Json.quoted s = Json.dquote :: list_ascii_of_string s ++ [Json.dquote].
Proof.
  unfold plain_name, Json.quoted, Json.characters. intros H.
  rewrite code_points_ascii
    by (eapply Forall_impl; [exact H|]; apply plain_below_del).
  cbn [default from_option id]. do 2 f_equal.
  induction H as [|c l Hc Hl IH]; [done|].
  cbn [map concat]. rewrite escape_plain by done. by rewrite IH.
Qed.

Lemma fields_nonempty (l : list ascii) : fields l ≠ [].
Proof.
  destruct l as [|c l]; simpl; [done|].
  destruct (Ascii.eqb c Json.dquote); [done|]. by destruct (fields l).
Qed.

Lemma fields_app_quote (x y : list ascii) :
  fields (x ++ Json.dquote :: y) = fields x ++ fields y.
Proof.
  induction x as [|c x IH]; cbn [app fields].
  - by rewrite Ascii.eqb_refl.
  - destruct (Ascii.eqb c Json.dquote); [by rewrite IH|].
    rewrite IH. pose proof (fields_nonempty x). by destruct (fields x).
Qed.

Lemma fields_quote_free (z : list ascii) :
  Forall (fun c => Ascii.eqb c Json.dquote = false) z -> fields z = [z].
Proof.
  induction 1 as [|c z Hc Hz IH]; cbn [fields]; [done|]. by rewrite Hc, IH.
Qed.

(** A quoted piece found in a text is one of its fields, and neither the
    first nor the last. *)
Lemma fields_of_infix (a z b : list ascii) :
  Forall (fun c => Ascii.eqb c Json.dquote = false) z ->
  fields (a ++ (Json.dquote :: z ++ [Json.dquote]) ++ b)
  = fields a ++ z :: fields b.
Proof.
  intros Hz. cbn [app]. rewrite fields_app_quote. f_equal.
  rewrite <- app_assoc. cbn [app]. rewrite fields_app_quote.
  by rewrite fields_quote_free.
Qed.

Lemma inner_element {A : Type} (x y z : A) (m fa fb : list A) :
  x :: m ++ [y] = fa ++ z :: fb -> fa ≠ [] -> fb ≠ [] -> z ∈ m.
Proof.
  intros Heq Hfa Hfb. destruct fa as [|x' fa]; [done|].
  injection Heq as -> Heq.
  destruct fb as [|w fb _] using rev_ind; [done|].
  change (fa ++ z :: fb ++ [w]) with (fa ++ (z :: fb) ++ [w]) in Heq.
  rewrite app_assoc in Heq. apply app_inj_tail in Heq as [-> _].
  set_solver.
Qed.

Lemma plain_quote_free (s : string) :
  plain_name s ->
  Forall (fun c => Ascii.eqb c Json.dquote = false) (list_ascii_of_string s).
Proof.
  unfold plain_name. intros H. eapply Forall_impl; [exact H|].
  intros c. apply plain_not_quote.
Qed.

Lemma fields_join (zs : list string) (pre tl : list ascii) :
  zs ≠ [] -> Forall plain_name zs ->
  Forall (fun c => Ascii.eqb c Json.dquote = false) pre ->
  Forall (fun c => Ascii.eqb c Json.dquote = false) tl ->
  fields (pre ++ Json.join [","%char] (map Json.quoted zs) ++ tl)
  = pre :: between (map list_ascii_of_string zs) ++ [tl].
Proof.
  intros Hne Hplain. revert pre Hne.
  induction Hplain as [|z zs Hz Hzs IH]; intros pre Hne Hpre Htl; [done|].
  destruct zs as [|z2 rest].
  - cbn [map Json.join between]. rewrite quoted_plain by done.
    rewrite fields_of_infix by by apply plain_quote_free.
    by rewrite !fields_quote_free.
  - assert (Htext :
      pre ++ Json.join [","%char] (map Json.quoted (z :: z2 :: rest)) ++ tl
      = pre ++ (Json.dquote :: list_ascii_of_string z ++ [Json.dquote])
            ++ ([","%char]
                  ++ Json.join [","%char] (map Json.quoted (z2 :: rest)) ++ tl)).
    { change (Json.join [","%char] (map Json.quoted (z :: z2 :: rest)))
        with (Json.quoted z ++ [","%char]
                ++ Json.join [","%char] (map Json.quoted (z2 :: rest))).
      rewrite quoted_plain by done. by rewrite <- !app_assoc. }
    rewrite Htext.
    rewrite fields_of_infix by by apply plain_quote_free.
    rewrite (fields_quote_free pre) by done.
    rewrite IH; [done|done| |done].
    repeat constructor.
Qed.

Lemma between_elem (z : list ascii) (zs : list (list ascii)) :
  z ∈ between zs -> z ∈ zs \/ z = [","%char].
Proof.
  induction zs as [|y zs IH]; cbn [between]; [by left|].
  destruct zs as [|y2 rest]; [by left|].
  rewrite !elem_of_cons. intros [->|[->|Hin]].
  - left. by left.
  - by right.
  - destruct (IH Hin) as [H'|H']; [|by right].
    left. rewrite elem_of_cons in H'. tauto.
Qed.

Lemma join_infix (sep z : list ascii) (items : list (list ascii)) :
  In z items -> exists a b, Json.join sep items = a ++ z ++ b.
Proof.
  induction items as [|y items IH]; [done|]. intros [->|Hin].
  - destruct items as [|y2 rest].
    + exists [], []. cbn [Json.join app]. by rewrite app_nil_r.
    + by exists [], (sep ++ Json.join sep (y2 :: rest)).
  - destruct (IH Hin) as (a & b & Hab). destruct items as [|y2 rest]; [done|].
    exists (y ++ sep ++ a), b.
    change (Json.join sep (y :: y2 :: rest))
      with (y ++ sep ++ Json.join sep (y2 :: rest)).
    rewrite Hab. by rewrite <- !app_assoc.
Qed.

(** A quoted name free of quotes occurs in the text of a zone set exactly
    when it is one of the names, the lone comma apart. *)
Lemma zones_text_infix (z : list ascii) (zs : list string) :
  Forall plain_name zs ->
  Forall (fun c => Ascii.eqb c Json.dquote = false) z ->
  z ≠ [","%char] ->
  (exists a b, Json.zones_text zs = a ++ (Json.dquote :: z ++ [Json.dquote]) ++ b)
  <-> In z (map list_ascii_of_string zs).
Proof.
  intros Hzs Hz Hcomma. split.
  - intros (a & b & Heq). apply (f_equal fields) in Heq.
    rewrite fields_of_infix in Heq by done.
    destruct zs as [|z1 rest].
    + apply (f_equal length) in Heq. rewrite length_app in Heq.
      pose proof (fields_nonempty a). destruct (fields a); [done|].
      cbn in Heq. lia.
    + unfold Json.zones_text in Heq.
      change ("["%char :: ?x) with (["["%char] ++ x) in Heq.
      rewrite fields_join in Heq; [|done|done|repeat constructor..].
      apply inner_element in Heq; [|apply fields_nonempty..].
      apply between_elem in Heq as [Hin|Heq]; [|done].
      by apply list_elem_of_In in Hin.
  - intros Hin. apply in_map_iff in Hin as (s & <- & Hin).
    destruct (join_infix [","%char] (Json.quoted s) (map Json.quoted zs))
      as (a & b & Hab); [by apply in_map|].
    exists ("["%char :: a), (b ++ ["]"%char]).
    unfold Json.zones_text. rewrite Hab.
    assert (Hs : plain_name s)
      by (rewrite Forall_forall in Hzs; apply Hzs; by apply list_elem_of_In).
    rewrite quoted_plain by done.
    change ("["%char :: a) with (["["%char] ++ a).
    change ("["%char :: ?x) with (["["%char] ++ x).
    by rewrite <- !app_assoc.
Qed.

Lemma chars_inj (s t : string) :
  list_ascii_of_string s = list_ascii_of_string t -> s = t.
Proof.
  intros H. apply (f_equal string_of_list_ascii) in H.
  by rewrite !string_of_list_ascii_of_string in H.
Qed.

Lemma chars_append (s t : string) :
  list_ascii_of_string (s +:+ t)
  = list_ascii_of_string s ++ list_ascii_of_string t.
Proof. induction s as [|c s IH]; simpl; [done|]. by rewrite IH. Qed.

Lemma in_chars (z : string) (zs : list string) :
  In (list_ascii_of_string z) (map list_ascii_of_string zs) <-> In z zs.
Proof.
  rewrite in_map_iff. split.
  - intros (s & Heq & Hin). apply chars_inj in Heq. by subst s.
  - intros Hin. by exists z.
Qed.

Lemma proper_superstring_differs (pre zone post : string) :
  pre ≠ ""%string \/ post ≠ ""%string -> pre +:+ zone +:+ post ≠ zone.
Proof.
  intros Hne Heq. apply (f_equal list_ascii_of_string) in Heq.
  rewrite !chars_append in Heq. apply (f_equal length) in Heq.
  rewrite !length_app in Heq.
  destruct Hne as [Hne|Hne]; [destruct pre|destruct post]; simpl in *;
    try done; lia.
Qed.

(** ** Texts without NUL *)

Lemma c_string_id (l : list ascii) :
  Forall (fun c => c ≠ zero) l -> Sqlite.c_string l = l.
Proof.
  induction 1 as [|c l Hc Hl IH]; cbn [Sqlite.c_string]; [done|].
  destruct (Ascii.eqb_spec c zero); [done|]. by rewrite IH.
Qed.

Lemma hex_digit_no_nul (n : N) : Json.hex_digit (n mod 16) ≠ zero.
Proof.
  assert (Hlt : (n mod 16 < 16)%N) by (apply N.mod_lt; lia).
  destruct (n mod 16)%N as [|p]; [by vm_compute|].
  do 5 (try destruct p as [p|p|]); try lia; by vm_compute.
Qed.

Lemma unicode_escape_no_nul (c : N) :
  Forall (fun x => x ≠ zero) (Json.unicode_escape c).
Proof.
  unfold Json.unicode_escape.
  repeat constructor; try discriminate; apply hex_digit_no_nul.
Qed.

Lemma escape_no_nul (c : N) :
  Forall (fun x => x ≠ zero) (Json.escape_char c).
Proof.
  unfold Json.escape_char.
  repeat match goal with
         | |- context [if ?b then _ else _] => destruct b eqn:?
         end;
    try (repeat constructor; discriminate).
  - constructor; [|done]. intros Hzero.
    apply andb_prop in Heqb6 as [Hlo Hhi].
    apply N.leb_le in Hlo, Hhi.
    assert (Hc : N_of_ascii (ascii_of_N c) = c)
      by (apply N_ascii_embedding; lia).
    rewrite Hzero in Hc. vm_compute in Hc. lia.
  - apply unicode_escape_no_nul.
  - apply Forall_app. split; apply unicode_escape_no_nul.
Qed.

Lemma quoted_no_nul (s : string) :
  Forall (fun x => x ≠ zero) (Json.quoted s).
Proof.
  unfold Json.quoted. constructor; [done|]. apply Forall_app. split.
  - induction (Json.characters s) as [|c l IH]; simpl; [done|].
    apply Forall_app. split; [apply escape_no_nul|done].
  - by repeat constructor.
Qed.

Lemma join_no_nul (items : list (list ascii)) :
  Forall (Forall (fun x => x ≠ zero)) items ->
  Forall (fun x => x ≠ zero) (Json.join [","%char] items).
Proof.
  induction 1 as [|x items Hx Hitems IH]; [done|].
  destruct items as [|y rest]; [done|].
  change (Json.join [","%char] (x :: y :: rest))
    with (x ++ [","%char] ++ Json.join [","%char] (y :: rest)).
  apply Forall_app. split; [done|]. apply Forall_app. split; [|done].
  by repeat constructor.
Qed.

(** The text of a zone set holds no NUL, whatever the names. *)
Lemma zones_text_no_nul (zs : list string) :
  Forall (fun x => x ≠ zero) (Json.zones_text zs).
Proof.
  unfold Json.zones_text. constructor; [done|]. apply Forall_app. split.
  - apply join_no_nul. apply Forall_forall. intros x Hx.
    apply list_elem_of_In, in_map_iff in Hx as (s & <- & _).
    apply quoted_no_nul.
  - by repeat constructor.
Qed.

(** The zone clause on names without special characters. *)
Lemma zone_clause_literal (zone : string) (ev : Event.t) :
  literal_query zone -> Forall plain_name (Event.zones ev) ->
  zone_matches zone ev = true <-> In zone (Event.zones ev).
Proof.
  intros Hlit Hplain. unfold zone_matches. cbn [value].
  rewrite (c_string_id (Json.zones_text _)) by apply zones_text_no_nul.
  rewrite c_string_id.
  2:{ unfold zone_pattern. constructor; [done|]. constructor; [done|].
      apply Forall_app. split; [|by repeat constructor].
      eapply Forall_impl; [exact Hlit|]. by intros c (_ & Hc & _). }
  unfold zone_pattern.
  replace ("*"%char :: Json.dquote
             :: list_ascii_of_string zone ++ [Json.dquote; "*"%char])
    with ("*"%char :: (Json.dquote :: list_ascii_of_string zone ++ [Json.dquote])
            ++ ["*"%char])
    by (cbn [app]; by rewrite <- app_assoc).
  rewrite glob_infix.
  - rewrite zones_text_infix; [apply in_chars|done| |].
    + eapply Forall_impl; [exact Hlit|]. intros c (_ & _ & Hc & _).
      by apply Ascii.eqb_neq.
    + intros Heq. unfold literal_query in Hlit. rewrite Heq in Hlit.
      apply Forall_cons in Hlit as [(_ & _ & _ & Hcomma) _]. done.
  - constructor; [done|]. apply Forall_app. split.
    + eapply Forall_impl; [exact Hlit|]. by intros c (Hc & _).
    + by repeat constructor.
Qed.

Lemma zone_clause_member (zone : string) (ev : Event.t) :
  literal_query zone -> Forall plain_name (Event.zones ev) ->
  zone_matches zone ev = bool_decide (zone ∈ Event.zones ev).
Proof.
  intros Hlit Hplain. pose proof (zone_clause_literal zone ev Hlit Hplain) as H.
  rewrite <- list_elem_of_In in H.
  case_bool_decide as Hin.
  - by apply H.
  - apply not_true_is_false. intros Hm. by apply Hin, H.
Qed.

(** Under acceptable filters, on events with plain zone names, the clauses
    of the handler are the supplied filters of the spec. *)
Lemma clauses_hold_spec (args : gmap string string) (ev : Event.t) :
  filters_ok args ->
  (is_Some (args !! "zone"%string) -> Forall plain_name (Event.zones ev)) ->
  clauses_hold args ev = spec_satisfies args ev.
Proof.
  intros (Hc & Hl & Hz & Ha & Hb) Hplain. unfold clauses_hold, spec_satisfies.
  rewrite !truthy_text_ok, truthy_zone_ok, !truthy_int_ok by done.
  destruct (args !! "zone"%string) as [z|] eqn:Hzone; [|done].
  cbn [from_option]. destruct (Hz z eq_refl) as (_ & Hlit & _).
  by rewrite zone_clause_member by (by auto).
Qed.

Lemma clauses_hold_no_filters (args : gmap string string) (ev : Event.t) :
  no_filters args -> clauses_hold args ev = true.
Proof.
  intros (Hc & Hl & Hz & Ha & Hb). unfold clauses_hold.
  by rewrite Hc, Hl, Hz, Ha, Hb.
Qed.

Lemma no_filters_condition (args : gmap string string) :
  no_filters args -> condition args = TrueLit.
Proof.
  intros (Hc & Hl & Hz & Ha & Hb). unfold condition, clause_list.
  by rewrite Hc, Hl, Hz, Ha, Hb.
Qed.

(** ** What an answer of /events holds *)

Lemma events_filtered sql_integer db (args : gmap string string) (n : Z) :
  limit_in_force sql_integer args n -> filters_ok args ->
  (is_Some (args !! "zone"%string) -> plain_zones db) ->
  exists l rest,
    events sql_integer db args = Ok l
    /\ l ++ rest ≡ₚ List.filter (spec_satisfies args) db
    /\ StronglySorted starts_no_earlier (l ++ rest)
    /\ (rest = [] \/ Z.of_nat (length l) = n).
Proof.
  intros Hlimit Hok Hplain.
  rewrite (events_answer _ _ _ n)
    by (by auto using filters_ok_bindable, filters_ok_fit).
  rewrite (filter_ext_in (clauses_hold args) (spec_satisfies args)).
  - destruct (most_recent_split n (List.filter (spec_satisfies args) db))
      as (rest & Hperm & Hsorted & Hrest).
    by eexists _, rest.
  - intros ev Hin. apply clauses_hold_spec; [done|]. intros Hzone.
    specialize (Hplain Hzone). unfold plain_zones in Hplain.
    rewrite Forall_forall in Hplain. apply Hplain. by apply list_elem_of_In.
Qed.

Lemma events_sorted sql_integer db (args : gmap string string) (n : Z)
    (l : list Event.t) :
  limit_in_force sql_integer args n -> events sql_integer db args = Ok l ->
  StronglySorted starts_no_earlier l /\ (0 <= n -> Z.of_nat (length l) <= n).
Proof.
  intros Hlimit Hl.
  apply events_ok_inv in Hl as (n' & rows & Hn & _ & _ & ->).
  rewrite (limit_value_in_force _ _ n) in Hn by done. injection Hn as <-.
  set (sorted := merge_sort starts_no_earlier rows).
  assert (Hsorted : StronglySorted starts_no_earlier sorted)
    by (apply StronglySorted_merge_sort; apply _).
  destruct (sql_limit_split n sorted) as (rest & Happ & _ & Hlen).
  split; [|done].
  rewrite <- Happ in Hsorted. by apply StronglySorted_app_1_l in Hsorted.
Qed.

(** Every event of an answer is stored and meets the clauses of the
    request. *)
Lemma events_members sql_integer db (args : gmap string string)
    (l : list Event.t) (ev : Event.t) :
  patterns_fit (condition args) = true ->
  events sql_integer db args = Ok l -> In ev l ->
  In ev db /\ clauses_hold args ev = true.
Proof.
  intros Hfit Hl Hin.
  apply events_ok_inv in Hl as (n & rows & _ & Hsub & Hall & ->).
  assert (Hrows : In ev rows).
  { apply list_elem_of_In. apply list_elem_of_In in Hin.
    pose proof (sql_limit_sublist n (merge_sort starts_no_earlier rows)) as Hs.
    apply (elem_of_sublist _ _ _ Hin) in Hs.
    by rewrite merge_sort_Permutation in Hs. }
  split.
  - apply list_elem_of_In. apply list_elem_of_In in Hrows.
    by apply (elem_of_sublist rows).
  - specialize (Hall ev Hrows). rewrite holds_value in Hall by done.
    injection Hall as Hall. by rewrite <- value_condition.
Qed.

(** C1 (amended).  Let [n] be the limit in force: the value the store gives
    the [limit] parameter, or 100 when the parameter is absent.  Every list
    the handler of [/events] answers with is sorted by start time,
    descending, and, when [n] is not negative, holds at most [n] events (a
    negative limit puts no bound).  When every supplied text filter is not
    empty, a supplied zone is a name of at most 49996 bytes without star,
    question mark, opening bracket, NUL, double quote and comma, the zone
    names of the store are printable ASCII without double quote and
    backslash, and every supplied time bound is an integer of 64 bits other
    than zero, the handler answers, and its answer consists of the most
    recent events among those that satisfy all the supplied filters
    together, the zone filter by membership in the zone set: the events that
    satisfy them are the answer followed by a remainder of events that
    started no later, and the remainder is empty unless the answer has
    exactly [n] events.  With no filter at all the same holds of the whole
    store. *)
Theorem events_sorted_limited_conjunctive
    (sql_integer : string -> option Z) (db : list Event.t)
    (args : gmap string string) (n : Z) :
  limit_in_force sql_integer args n ->
  (forall l,
     events sql_integer db args = Ok l ->
     StronglySorted starts_no_earlier l
     /\ (0 <= n -> Z.of_nat (length l) <= n))
  /\ (filters_ok args ->
      (is_Some (args !! "zone"%string) -> plain_zones db) ->
      exists l rest,
        events sql_integer db args = Ok l
        /\ l ++ rest ≡ₚ List.filter (spec_satisfies args) db
        /\ StronglySorted starts_no_earlier (l ++ rest)
        /\ (rest = [] \/ Z.of_nat (length l) = n))
  /\ (no_filters args ->
      exists l rest,
        events sql_integer db args = Ok l
        /\ l ++ rest ≡ₚ db
        /\ StronglySorted starts_no_earlier (l ++ rest)
        /\ (rest = [] \/ Z.of_nat (length l) = n)).
Proof.
  intros Hlimit. split; [|split].
  - intros l Hl. by apply (events_sorted sql_integer db args).
  - intros Hok Hplain. by apply events_filtered.
  - intros Hnone.
    rewrite (events_answer _ _ _ n);
      [|by rewrite no_filters_condition..|done].
    rewrite filter_all_true
      by (intros ev; by apply clauses_hold_no_filters).
    destruct (most_recent_split n db) as (rest & Hperm & Hsorted & Hrest).
    by eexists _, rest.
Qed.

Lemma events_sorted_limited_conjunctive_witness :
  limit_in_force Sqlite.integer_of_text Sample.front_one 1
  /\ filters_ok Sample.front_one
  /\ exists l rest,
       events Sqlite.integer_of_text Sample.db Sample.front_one = Ok l
       /\ l ++ rest ≡ₚ List.filter (spec_satisfies Sample.front_one) Sample.db
       /\ StronglySorted starts_no_earlier (l ++ rest)
       /\ (rest = [] \/ Z.of_nat (length l) = 1).
Proof.
  assert (Hlimit : limit_in_force Sqlite.integer_of_text Sample.front_one 1)
    by (vm_compute; reflexivity).
  assert (Hok : filters_ok Sample.front_one).
  { unfold filters_ok, text_supplied_ok.
    split; [vm_compute; congruence|]. split; [vm_compute; congruence|].
    split; [|split]; intros s Hs; vm_compute in Hs; discriminate Hs. }
  split; [exact Hlimit|]. split; [exact Hok|].
  apply (proj1 (proj2 (events_sorted_limited_conjunctive
                         Sqlite.integer_of_text Sample.db Sample.front_one 1
                         Hlimit)) Hok).
  intros [z Hz]. vm_compute in Hz. discriminate Hz.
Defined.

Example events_sample :
  events Sqlite.integer_of_text Sample.db
    {[ "camera" := "front"; "limit" := "1" ]}%string = Ok [Sample.ev2]
  /\ events Sqlite.integer_of_text Sample.db ∅
     = Ok [Sample.ev4; Sample.ev3; Sample.ev2; Sample.ev1]
  /\ events Sqlite.integer_of_text Sample.db {[ "zone" := "yard" ]}%string
     = Ok [Sample.ev2; Sample.ev1]
  /\ events Sqlite.integer_of_text Sample.db
       {[ "after" := "1500"; "before" := "3000"; "label" := "person" ]}%string
     = Ok [Sample.ev3]
  /\ events Sqlite.integer_of_text Sample.db
       {[ "after" := "１５００"; "before" := " 3_000 " ]}%string
     = Ok [Sample.ev3; Sample.ev2]
  /\ events Sqlite.integer_of_text Sample.db {[ "limit" := "0" ]}%string
     = Ok [].
Proof. vm_compute. repeat split. Qed.

(** The statement of C1 fails at four requests.  With [limit=-1] both events
    of a store of two come back, more than the limit.  With [before=0] an
    event that started after time 0 comes back although the filter is
    supplied.  With [before=9223372036854775808] the request is not answered
    at all.  With [zone=*] an event comes back that has no zone of that
    name. *)
Lemma events_claim_counterexample :
  (events Sqlite.integer_of_text [Sample.ev1; Sample.ev2]
     {[ "limit" := "-1" ]}%string = Ok [Sample.ev2; Sample.ev1]
   /\ limit_in_force Sqlite.integer_of_text {[ "limit" := "-1" ]}%string (-1)
   /\ ~ Z.of_nat (length [Sample.ev2; Sample.ev1]) <= -1)
  /\ (events Sqlite.integer_of_text [Sample.ev1]
        {[ "before" := "0" ]}%string = Ok [Sample.ev1]
      /\ spec_satisfies {[ "before" := "0" ]}%string Sample.ev1 = false)
  /\ events Sqlite.integer_of_text Sample.db
       {[ "before" := "9223372036854775808" ]}%string = Raise OverflowError
  /\ (events Sqlite.integer_of_text [Sample.ev1]
        {[ "zone" := "*" ]}%string = Ok [Sample.ev1]
      /\ spec_satisfies {[ "zone" := "*" ]}%string Sample.ev1 = false).
Proof.
  split; [split; [|split]|split; [split|split; [|split]]];
    try (vm_compute; reflexivity).
  simpl. lia.
Qed.

(** ** The zone filter *)

(** C2 (amended).  Take a request to [/events] whose zone parameter is a
    name that is not empty, has at most 49996 bytes and holds none of the
    characters star, question mark, opening bracket, NUL, double quote and
    comma, on a store whose zone names are written in printable ASCII
    without the double quote and the backslash.  Every event the handler
    answers with has the queried name as a member of its zone set; in
    particular no event of the answer has as its only zone a name that
    holds the queried name as a proper substring.  When the zone is the only
    filter, the answer consists of the most recent events that have the
    queried name in their zone set, all of them unless the limit cuts the
    list. *)
Theorem zone_filter_membership (sql_integer : string -> option Z)
    (db : list Event.t) (args : gmap string string) (zone : string) (n : Z) :
  args !! "zone"%string = Some zone -> zone ≠ ""%string ->
  literal_query zone -> pattern_fits zone -> plain_zones db ->
  (forall l ev,
     events sql_integer db args = Ok l -> In ev l ->
     In zone (Event.zones ev))
  /\ (forall l ev pre post,
        events sql_integer db args = Ok l ->
        Event.zones ev = [pre +:+ zone +:+ post] ->
        pre ≠ ""%string \/ post ≠ ""%string ->
        ~ In ev l)
  /\ (args !! "camera"%string = None -> args !! "label"%string = None ->
      args !! "after"%string = None -> args !! "before"%string = None ->
      limit_in_force sql_integer args n ->
      exists l rest,
        events sql_integer db args = Ok l
        /\ l ++ rest
           ≡ₚ List.filter (fun ev => bool_decide (zone ∈ Event.zones ev)) db
        /\ StronglySorted starts_no_earlier (l ++ rest)
        /\ (rest = [] \/ Z.of_nat (length l) = n)).
Proof.
  intros Hzone Hne Hlit Hfits Hplain.
  assert (Hfit : patterns_fit (condition args) = true).
  { apply patterns_fit_condition. intros z Hz. congruence. }
  assert (Hmember : forall l ev,
    events sql_integer db args = Ok l -> In ev l -> In zone (Event.zones ev)).
  { intros l ev Hl Hin.
    destruct (events_members _ _ _ _ _ Hfit Hl Hin) as [Hdb Hev].
    unfold clauses_hold in Hev. rewrite Hzone in Hev.
    rewrite (truthy_text_ok (Some zone)) in Hev
      by (unfold text_supplied_ok; congruence).
    cbn [from_option] in Hev.
    assert (Hm : zone_matches zone ev = true).
    { repeat (apply andb_prop in Hev as [Hev ?]). done. }
    apply zone_clause_literal in Hm; [done|done|].
    unfold plain_zones in Hplain. rewrite Forall_forall in Hplain.
    apply Hplain. by apply list_elem_of_In. }
  split; [exact Hmember|]. split.
  - intros l ev pre post Hl Hzones Hproper Hin.
    specialize (Hmember l ev Hl Hin). rewrite Hzones in Hmember.
    destruct Hmember as [Heq|[]].
    by apply (proper_superstring_differs pre zone post).
  - intros Hc Hlabel Ha Hb Hlimit.
    destruct (events_filtered sql_integer db args n Hlimit)
      as (l & rest & Hl & Hperm & Hrest); [|done|].
    { unfold filters_ok, text_supplied_ok. rewrite Hc, Hlabel, Hzone, Ha, Hb.
      split; [done|]. split; [done|]. split; [|split].
      - by intros z [= <-].
      - by intros s Hs.
      - by intros s Hs. }
    exists l, rest. split; [done|]. split; [|done].
    rewrite Hperm.
    rewrite (filter_ext_bool (spec_satisfies args)
               (fun ev => bool_decide (zone ∈ Event.zones ev))); [done|].
    intros ev. unfold spec_satisfies. rewrite Hc, Hlabel, Hzone, Ha, Hb.
    cbn [from_option mbind option_bind]. by rewrite !andb_true_r.
Qed.

Lemma zone_filter_membership_witness :
  ({[ "zone" := "yard" ]} : gmap string string) !! "zone"%string
    = Some "yard"%string
  /\ literal_query "yard" /\ pattern_fits "yard" /\ plain_zones Sample.db
  /\ events Sqlite.integer_of_text Sample.db {[ "zone" := "yard" ]}%string
     = Ok [Sample.ev2; Sample.ev1]
  /\ In "yard"%string (Event.zones Sample.ev2).
Proof.
  assert (Hz : ({[ "zone" := "yard" ]} : gmap string string) !! "zone"%string
               = Some "yard"%string) by (vm_compute; reflexivity).
  assert (Hne : "yard"%string ≠ ""%string) by discriminate.
  assert (Hq : literal_query "yard").
  { repeat constructor; vm_compute; congruence. }
  assert (Hfits : pattern_fits "yard") by (vm_compute; discriminate).
  assert (Hplain : plain_zones Sample.db) by repeat constructor.
  assert (Hl : events Sqlite.integer_of_text Sample.db
                 {[ "zone" := "yard" ]}%string = Ok [Sample.ev2; Sample.ev1])
    by (vm_compute; reflexivity).
  split; [exact Hz|]. split; [exact Hq|]. split; [exact Hfits|].
  split; [exact Hplain|]. split; [exact Hl|].
  apply (proj1 (zone_filter_membership Sqlite.integer_of_text Sample.db
                  {[ "zone" := "yard" ]}%string "yard" 100
                  Hz Hne Hq Hfits Hplain)
           [Sample.ev2; Sample.ev1] Sample.ev2 Hl).
  by left.
Defined.

Example zone_filter_samples :
  events Sqlite.integer_of_text [Sample.ev4] {[ "zone" := "yard" ]}%string
  = Ok []
  /\ events Sqlite.integer_of_text [Sample.ev2] {[ "zone" := "yard" ]}%string
     = Ok [Sample.ev2]
  /\ events Sqlite.integer_of_text [Sample.ev2]
       {[ "zone" := "street" ]}%string = Ok [Sample.ev2]
  /\ events Sqlite.integer_of_text [Sample.ev3] {[ "zone" := "yard" ]}%string
     = Ok [].
Proof. vm_compute. repeat split. Qed.

(** The statement of C2 fails where the queried name holds a GLOB
    wildcard.  The name [y?rd] is not a zone of an event whose zone is
    [yard], and the event is returned; the name [*] is a proper substring of
    the only zone [north*] of an event, and the event is returned. *)
Lemma zone_filter_counterexample :
  (events Sqlite.integer_of_text [Sample.ev1] {[ "zone" := "y?rd" ]}%string
   = Ok [Sample.ev1]
   /\ ~ In "y?rd"%string (Event.zones Sample.ev1))
  /\ (events Sqlite.integer_of_text [Sample.ev5] {[ "zone" := "*" ]}%string
      = Ok [Sample.ev5]
      /\ Event.zones Sample.ev5 = ["north" +:+ "*" +:+ ""]%string
      /\ ~ In "*"%string (Event.zones Sample.ev5)).
Proof.
  repeat split; try (vm_compute; reflexivity);
    simpl; intros [H|[]]; discriminate H.
Qed.

(** ** Parameters that do not parse *)

Lemma clause_list_bound_ignored (args : gmap string string) (key s : string) :
  key = "after"%string \/ key = "before"%string ->
  args !! key = Some s -> Py.int s = None \/ Py.int s = Some 0 ->
  clause_list (delete key args) = clause_list args.
Proof.
  intros Hkey Hs Hint.
  assert (Hfalsy : truthy_int (args !! key ≫= Py.int) = None).
  { rewrite Hs. simpl. by destruct Hint as [-> | ->]. }
  unfold clause_list.
  destruct Hkey; subst key; rewrite Hfalsy, lookup_delete_eq;
    rewrite !lookup_delete_ne by done; reflexivity.
Qed.

Lemma limit_of_delete (args : gmap string string) (key : string) :
  key ≠ "limit"%string -> limit_of (delete key args) = limit_of args.
Proof. intros Hkey. unfold limit_of. by rewrite lookup_delete_ne. Qed.

Lemma events_bound_ignored sql_integer db (args : gmap string string)
    (key s : string) :
  key = "after"%string \/ key = "before"%string ->
  args !! key = Some s -> Py.int s = None ->
  events sql_integer db args = events sql_integer db (delete key args).
Proof.
  intros Hkey Hs Hint. apply events_same; symmetry.
  - apply (clause_list_bound_ignored args key s); auto.
  - apply limit_of_delete. by destruct Hkey; subst key.
Qed.

Lemma events_limit_refused sql_integer db (args : gmap string string)
    (s : string) :
  args !! "limit"%string = Some s -> sql_integer s = None ->
  bounds_bindable args ->
  events sql_integer db args = Raise DatabaseError.
Proof.
  intros Hs Hint Hbind. rewrite events_unfold.
  unfold select_where_order_limit. rewrite bindable_condition by done.
  unfold limit_of. rewrite Hs. simpl. by rewrite Hint.
Qed.

(** A time bound outside 64 bits cannot be bound to the statement. *)
Lemma events_bound_overflow sql_integer db (args : gmap string string)
    (key s : string) (t : Z) :
  key = "after"%string \/ key = "before"%string ->
  args !! key = Some s -> Py.int s = Some t -> Sqlite.int64 t = false ->
  events sql_integer db args = Raise OverflowError.
Proof.
  intros Hkey Hs Ht H64. rewrite events_unfold.
  unfold select_where_order_limit.
  assert (Hnz : t ≠ 0) by (intros ->; done).
  assert (Htruthy : truthy_int (args !! key ≫= Py.int) = Some t).
  { rewrite Hs. simpl. rewrite Ht. simpl. by destruct (Z.eqb_spec t 0). }
  assert (Hbind : bindable (condition args) = false).
  { unfold condition, clause_list.
    destruct Hkey; subst key; rewrite Htruthy;
      destruct (truthy_text (args !! "camera"%string)),
               (truthy_text (args !! "label"%string)),
               (truthy_text (args !! "zone"%string));
      try destruct (truthy_int (args !! "after"%string ≫= Py.int));
      try destruct (truthy_int (args !! "before"%string ≫= Py.int));
      cbn [append_if app fold_left bindable andb];
      rewrite H64, ?andb_false_r; reflexivity. }
  by rewrite Hbind.
Qed.

Lemma events_raises sql_integer db (args : gmap string string) (x : exn) :
  events sql_integer db args = Raise x ->
  x = OverflowError \/ x = DatabaseError.
Proof.
  rewrite events_unfold. unfold select_where_order_limit.
  destruct (bindable (condition args)); [|intros [= <-]; by left].
  unfold limit_value.
  destruct (limit_of args) as [n|s]; simpl.
  - destruct (n =? 0); [done|].
    destruct (where_rows _ db) as [rows|y] eqn:Hrows; [done|]. simpl.
    intros [= <-]. right. by apply (where_rows_raises _ _ _ Hrows).
  - destruct (sql_integer s) as [n|]; simpl; [|intros [= <-]; by right].
    destruct (n =? 0); [done|].
    destruct (where_rows _ db) as [rows|y] eqn:Hrows; [done|]. simpl.
    intros [= <-]. right. by apply (where_rows_raises _ _ _ Hrows).
Qed.

(** C3 (amended).  No request to [/events] is answered with an invalid-filter
    error: the handler answers with a list of events, or ends in an overflow
    error or a database error, which no handler catches.  A [before] or
    [after] parameter that is present but that [int] does not take for an
    integer is dropped without notice: the answer is that of the same
    request without the parameter.  One that is an integer outside 64 bits
    makes the request end in the overflow error.  A [limit] parameter that
    the store cannot take as an integer makes the query fail with a database
    error, whatever the store holds, when the time bounds are of 64
    bits. *)
Theorem events_unparsable_parameter
    (sql_integer : string -> option Z) (db : list Event.t)
    (args : gmap string string) (key s : string) :
  args !! key = Some s ->
  (key = "after"%string \/ key = "before"%string -> Py.int s = None ->
   events sql_integer db args = events sql_integer db (delete key args))
  /\ (forall t,
        key = "after"%string \/ key = "before"%string ->
        Py.int s = Some t -> Sqlite.int64 t = false ->
        events sql_integer db args = Raise OverflowError)
  /\ (key = "limit"%string -> sql_integer s = None -> bounds_bindable args ->
      events sql_integer db args = Raise DatabaseError)
  /\ (forall x,
        events sql_integer db args = Raise x ->
        x = OverflowError \/ x = DatabaseError).
Proof.
  intros Hs. split; [|split; [|split]].
  - intros Hkey Hint. by apply (events_bound_ignored _ _ _ key s).
  - intros t Hkey Ht H64. by apply (events_bound_overflow _ _ _ key s t).
  - intros -> Hint Hbind. by apply (events_limit_refused _ _ _ s).
  - intros x. apply events_raises.
Qed.

Lemma events_unparsable_parameter_witness :
  ({[ "after" := "soon" ]} : gmap string string) !! "after"%string
    = Some "soon"%string
  /\ Py.int "soon" = None
  /\ events Sqlite.integer_of_text Sample.db {[ "after" := "soon" ]}%string
     = events Sqlite.integer_of_text Sample.db
         (delete "after"%string {[ "after" := "soon" ]}%string).
Proof.
  split; [vm_compute; reflexivity|]. split; [vm_compute; reflexivity|].
  apply (events_unparsable_parameter Sqlite.integer_of_text Sample.db
           {[ "after" := "soon" ]}%string "after"%string "soon"%string).
  - vm_compute. reflexivity.
  - by left.
  - vm_compute. reflexivity.
Defined.

(** The statement of C3 fails at [/events?after=soon]: the text is not an
    integer, and the request is answered with the whole list.  At
    [/events?limit=abc] the request does fail, with the database error and
    not with an invalid-filter error. *)
Lemma events_unparsable_counterexample :
  Py.int "soon" = None
  /\ events Sqlite.integer_of_text Sample.db {[ "after" := "soon" ]}%string
     = Ok [Sample.ev4; Sample.ev3; Sample.ev2; Sample.ev1]
  /\ events Sqlite.integer_of_text Sample.db {[ "limit" := "abc" ]}%string
     = Raise DatabaseError.
Proof. repeat split; vm_compute; reflexivity. Qed.

(** ** [int(str(n))] *)

Lemma digit_not_space (c : ascii) : digit_char c -> Py.is_space c = false.
Proof.
  destruct c as [[] [] [] [] [] [] [] []]; vm_compute; intros [f Hf];
    congruence.
Qed.

Lemma digit_is_ascii (c : ascii) : digit_char c -> (N_of_ascii c <? 127)%N = true.
Proof.
  destruct c as [[] [] [] [] [] [] [] []]; vm_compute; intros [f Hf];
    congruence.
Qed.

Lemma lstrip_id (l : list ascii) :
  Forall (fun c => Py.is_space c = false) l -> Py.lstrip l = l.
Proof. destruct 1 as [|c l Hc _]; simpl; [done|]. by rewrite Hc. Qed.

Lemma strip_id (l : list ascii) :
  Forall (fun c => Py.is_space c = false) l -> Py.strip l = l.
Proof.
  intros Hl. unfold Py.strip. rewrite (lstrip_id l) by done.
  rewrite lstrip_id.
  - apply rev_involutive.
  - apply Forall_forall. intros c Hc. rewrite Forall_forall in Hl.
    apply Hl. apply list_elem_of_In. apply in_rev. by apply list_elem_of_In.
Qed.

Lemma uint_chars_digits (d : Decimal.uint) :
  Forall digit_char (list_ascii_of_string (NilEmpty.string_of_uint d)).
Proof.
  induction d; simpl; constructor; try done; by eexists.
Qed.

Lemma digits_of_uint (d : Decimal.uint) :
  Py.digits true (list_ascii_of_string (NilEmpty.string_of_uint d)) = Some d.
Proof. induction d; simpl; [done|by rewrite IHd..]. Qed.

Lemma to_ascii_all_ascii (l : list ascii) :
  Forall (fun c => (N_of_ascii c <? 127)%N = true) l ->
  Py.to_ascii_all (map N_of_ascii l) = Some l.
Proof.
  induction 1 as [|c l Hc Hl IH]; [done|]. cbn [Py.to_ascii_all map].
  rewrite IH. unfold Py.to_ascii. by rewrite Hc, ascii_N_embedding.
Qed.

Lemma int_of_ascii (s : string) :
  Forall (fun c => (N_of_ascii c <? 127)%N = true) (list_ascii_of_string s) ->
  Py.int s = Py.int_of_chars (list_ascii_of_string s).
Proof.
  intros Hs. unfold Py.int.
  by rewrite code_points_ascii, to_ascii_all_ascii.
Qed.

(** The digits of a number are few when the number is small. *)
Lemma of_uint_acc_lower (d : Decimal.uint) (acc : positive) :
  Z.pos acc * 10 ^ Z.of_nat (Decimal.nb_digits d)
  <= Z.pos (Pos.of_uint_acc d acc).
Proof.
  revert acc. induction d as [|d IH|d IH|d IH|d IH|d IH|d IH|d IH|d IH|d IH|d IH];
    intros acc; cbn [Decimal.nb_digits Pos.of_uint_acc];
    [simpl; lia|..];
    (etrans; [|apply IH]); rewrite Nat2Z.inj_succ, Z.pow_succ_r by lia;
    pose proof (Z.pow_pos_nonneg 10 (Z.of_nat (Decimal.nb_digits d)));
    nia.
Qed.

Lemma to_uint_unorm (p : positive) :
  Decimal.unorm (Pos.to_uint p) = Pos.to_uint p.
Proof.
  pose proof (DecimalPos.Unsigned.to_of (Pos.to_uint p)) as H.
  by rewrite DecimalPos.Unsigned.of_to in H.
Qed.

Lemma to_uint_digits (p : positive) :
  10 ^ (Z.of_nat (Decimal.nb_digits (Pos.to_uint p)) - 1) <= Z.pos p.
Proof.
  pose proof (DecimalPos.Unsigned.of_to p) as Hof.
  pose proof (to_uint_unorm p) as Hnorm.
  pose proof (DecimalPos.Unsigned.to_uint_nonzero p) as Hnz.
  destruct (Pos.to_uint p) as [|d|d|d|d|d|d|d|d|d|d] eqn:Hd;
    [discriminate Hof| |..].
  { exfalso. rewrite DecimalFacts.unorm_D0 in Hnorm.
    unfold Decimal.unorm in Hnorm.
    destruct (Decimal.nzhead d) eqn:Hhead; try discriminate Hnorm.
    - injection Hnorm as <-. by apply Hnz.
    - eapply DecimalFacts.nzhead_nonzero. exact Hhead. }
  all: cbn [Decimal.nb_digits]; rewrite Nat2Z.inj_succ, Z.sub_1_r, Z.pred_succ;
    cbn [Pos.of_uint] in Hof; injection Hof as <-;
    match goal with
    | |- _ <= Z.pos (Pos.of_uint_acc ?u ?k) =>
        pose proof (of_uint_acc_lower u k); lia
    end.
Qed.

Lemma within_limit_small (p : positive) :
  Z.pos p <= int_max ->
  Py.within_limit (Pos.to_uint p) = Some (Pos.to_uint p).
Proof.
  intros Hp. unfold Py.within_limit. pose proof (to_uint_digits p) as Hd.
  set (k := Z.of_nat (Decimal.nb_digits (Pos.to_uint p))) in *.
  destruct (Z.leb_spec k Py.max_str_digits) as [_|Hk]; [done|].
  exfalso. unfold Py.max_str_digits in Hk.
  assert (H10 : 10 ^ 10 <= 10 ^ (k - 1)) by (apply Z.pow_le_mono_r; lia).
  assert (Hmax : int_max < 10 ^ 10) by (vm_compute; reflexivity).
  lia.
Qed.

Lemma nilzero_nonnil (d : Decimal.uint) :
  d ≠ Decimal.Nil -> NilZero.string_of_uint d = NilEmpty.string_of_uint d.
Proof. by destruct d. Qed.

Lemma digits_nonnil (d : Decimal.uint) :
  d ≠ Decimal.Nil ->
  Py.digits false (list_ascii_of_string (NilEmpty.string_of_uint d)) = Some d.
Proof.
  intros Hd.
  destruct d; [done|..]; cbn [NilEmpty.string_of_uint list_ascii_of_string];
    cbn [Py.digits Py.digit]; by rewrite digits_of_uint.
Qed.

Lemma uint_chars_head (d : Decimal.uint) :
  match list_ascii_of_string (NilEmpty.string_of_uint d) with
  | c :: _ => c ≠ "-"%char /\ c ≠ "+"%char
  | [] => True
  end.
Proof. by destruct d. Qed.

Lemma int_of_chars_uint (d : Decimal.uint) :
  d ≠ Decimal.Nil -> Py.within_limit d = Some d ->
  Py.int_of_chars (list_ascii_of_string (NilEmpty.string_of_uint d))
  = Some (Z.of_uint d).
Proof.
  intros Hd Hlimit. unfold Py.int_of_chars. rewrite strip_id.
  - pose proof (uint_chars_head d) as Hhead.
    pose proof (digits_nonnil d Hd) as Hdigits.
    destruct (list_ascii_of_string (NilEmpty.string_of_uint d)) as [|c l];
      [done|].
    destruct Hhead as [Hminus Hplus].
    destruct (Ascii.eqb_spec c "-"); [done|].
    destruct (Ascii.eqb_spec c "+"); [done|].
    assert (Hgoal : option_map Z.of_uint (Py.digits false (c :: l)
                                            ≫= Py.within_limit)
                    = Some (Z.of_uint d))
      by (rewrite Hdigits; simpl; by rewrite Hlimit).
    destruct c as [[] [] [] [] [] [] [] []]; try done.
  - eapply Forall_impl; [apply uint_chars_digits|]. apply digit_not_space.
Qed.

Lemma int_of_chars_neg (d : Decimal.uint) :
  d ≠ Decimal.Nil -> Py.within_limit d = Some d ->
  Py.int_of_chars
    ("-"%char :: list_ascii_of_string (NilEmpty.string_of_uint d))
  = Some (- Z.of_uint d).
Proof.
  intros Hd Hlimit. unfold Py.int_of_chars. rewrite strip_id.
  - rewrite digits_nonnil by done. simpl. by rewrite Hlimit.
  - constructor; [done|].
    eapply Forall_impl; [apply uint_chars_digits|]. apply digit_not_space.
Qed.

(** Reading back what [str] wrote gives the integer again, for the integers
    that fit a C int (and further). *)
Lemma int_str (n : Z) : Z.abs n <= int_max -> Py.int (Py.str n) = Some n.
Proof.
  intros Hn. unfold Py.str. destruct n as [|p|p]; [by vm_compute|..];
    cbn [Z.to_int NilZero.string_of_int];
    pose proof (DecimalPos.Unsigned.to_uint_nonnil p) as Hp;
    pose proof (DecimalPos.Unsigned.of_to p) as Hof;
    pose proof (within_limit_small p) as Hlimit;
    rewrite nilzero_nonnil by done.
  - rewrite int_of_ascii.
    + rewrite int_of_chars_uint by (by auto with lia).
      unfold Z.of_uint. by rewrite Hof.
    + eapply Forall_impl; [apply uint_chars_digits|]. apply digit_is_ascii.
  - rewrite int_of_ascii.
    + cbn [list_ascii_of_string].
      rewrite int_of_chars_neg by (by auto with lia).
      unfold Z.of_uint. by rewrite Hof.
    + cbn [list_ascii_of_string]. constructor; [done|].
      eapply Forall_impl; [apply uint_chars_digits|]. apply digit_is_ascii.
Qed.

(** ** The image handlers *)

Lemma max_side_int_max : max_side <= int_max.
Proof. vm_compute. discriminate. Qed.

Lemma latest_frame_unfold app camera_name (args : gmap string string) :
  latest_frame app camera_name args =
    if bool_decide (camera_name ∈ config_cameras app) then
      frame ← from_option Ok (np_zeros 720 1280)
                (get_current_frame app camera_name);
      serve_frame args frame
    else Ok (camera_not_found camera_name).
Proof.
  unfold latest_frame, serve_frame. case_bool_decide; [|done].
  by destruct (get_current_frame app camera_name).
Qed.

Lemma best_unfold app camera_name label (args : gmap string string) :
  best app camera_name label args =
    if bool_decide (camera_name ∈ config_cameras app) then
      let o := get_best app camera_name label in
      frame ← best_picture o;
      serve_frame args
        (if crop_requested args
         then crop_frame frame (default default_region (best_region o))
         else frame)
    else Ok (camera_not_found camera_name).
Proof. reflexivity. Qed.

Lemma requested_height_arg (args : gmap string string) (frame_rows h : Z) :
  0 <= frame_rows <= int_max ->
  requested_height args frame_rows h ->
  int_of_arg args "h" (Py.str frame_rows) = Ok h.
Proof.
  unfold requested_height, int_of_arg. intros Hrows.
  destruct (args !! "h"%string) as [s|]; simpl.
  - by intros ->.
  - intros ->. by rewrite int_str by lia.
Qed.

(** A frame that is not empty, served at a height that leaves it at least
    one pixel wide. *)
Lemma serve_frame_ok (args : gmap string string) (f : Frame) (h : Z) :
  requested_height args (rows f) h ->
  0 < rows f <= int_max -> 0 < cols f -> 0 < h <= int_max ->
  rows f <= h * cols f -> h * cols f ÷ rows f <= int_max ->
  serve_frame args f
  = Ok (Image 200 (Jpeg {| rows := h; cols := h * cols f ÷ rows f;
                           blank := blank f |})).
Proof.
  intros Hreq Hrows Hcols Hh Hwide Hwidth. unfold serve_frame.
  rewrite (requested_height_arg _ _ h) by (done || lia). simpl.
  unfold int_truediv. destruct (Z.eqb_spec (rows f) 0); [lia|]. simpl.
  assert (Hw : 0 < h * cols f ÷ rows f).
  { rewrite Z.quot_div_nonneg by lia.
    apply Z.div_str_pos. lia. }
  unfold cv2_resize, frame_empty.
  destruct (Z.leb_spec (rows f) 0); [lia|].
  destruct (Z.leb_spec (cols f) 0); [lia|].
  destruct (Z.leb_spec (h * cols f ÷ rows f) 0); [lia|].
  destruct (Z.leb_spec h 0); [lia|].
  destruct (Z.ltb_spec int_max (h * cols f ÷ rows f)); [lia|].
  destruct (Z.ltb_spec int_max h); [lia|]. simpl.
  unfold cv2_imencode, frame_empty. simpl.
  destruct (Z.leb_spec h 0); [lia|].
  destruct (Z.leb_spec (h * cols f ÷ rows f) 0); [lia|]. done.
Qed.

Lemma serve_frame_scaled (args : gmap string string) (f : Frame) (h : Z) :
  requested_height args (rows f) h -> scales_to f h ->
  serve_frame args f
  = Ok (Image 200 (Jpeg {| rows := h; cols := h * cols f ÷ rows f;
                           blank := blank f |})).
Proof.
  intros Hreq ((Hrows & Hcols) & Hh & Hwide & Hwidth).
  pose proof max_side_int_max. apply serve_frame_ok; (done || lia).
Qed.

Lemma round_half_even_floor (q : Q) :
  Qfloor q <= round_half_even q <= Qfloor q + 1.
Proof.
  unfold round_half_even.
  destruct (q - inject_Z (Qfloor q) ?= 1 # 2)%Q; [|lia..].
  destruct (Z.even (Qfloor q)); lia.
Qed.

Lemma trunc_near_round (a b : Z) :
  0 <= a -> 0 < b -> Z.abs (a ÷ b - round_div a b) <= 1.
Proof.
  intros Ha Hb. unfold round_div.
  pose proof (round_half_even_floor (a # Z.to_pos b)) as Hr.
  assert (Hfloor : Qfloor (a # Z.to_pos b) = a ÷ b).
  { rewrite Z.quot_div_nonneg by lia. simpl. by rewrite Z2Pos.id by lia. }
  rewrite Hfloor in Hr. lia.
Qed.

(** C4 (amended).  Take a source frame of width [W] and height [H], both
    from 1 to 8192, and a requested height [H'] from 1 to 8192 with
    [H <= H' * W] (so that at least one pixel of width is left) and a
    resulting width of at most 8192; the requested height is the integer
    that [int] reads from the parameter [h], or [H] when the parameter is
    absent.  Then [latest.jpg] and [best.jpg] answer with an image of height
    [H'] and of width [H' * W / H] rounded toward zero, which is within one
    pixel of the quotient rounded to the nearest integer.  For [best.jpg]
    the source frame is the converted best frame (or the placeholder) after
    the crop, when a crop is asked for. *)
Theorem resize_keeps_aspect (app : App) (camera_name label : string)
    (args : gmap string string) (f : Frame) (h : Z) :
  camera_name ∈ config_cameras app ->
  requested_height args (rows f) h ->
  scales_to f h ->
  (get_current_frame app camera_name = Some f ->
   latest_frame app camera_name args
   = Ok (Image 200 (Jpeg {| rows := h; cols := h * cols f ÷ rows f;
                            blank := blank f |})))
  /\ (forall bgr,
        best_picture (get_best app camera_name label) = Ok bgr ->
        f = (if crop_requested args
             then crop_frame bgr
                    (default default_region
                       (best_region (get_best app camera_name label)))
             else bgr) ->
        best app camera_name label args
        = Ok (Image 200 (Jpeg {| rows := h; cols := h * cols f ÷ rows f;
                                 blank := blank f |})))
  /\ Z.abs (h * cols f ÷ rows f - round_div (h * cols f) (rows f)) <= 1.
Proof.
  intros Hknown Hreq Hscales. split; [|split].
  - intros Hframe. rewrite latest_frame_unfold, bool_decide_true by done.
    rewrite Hframe. simpl. by apply serve_frame_scaled.
  - intros bgr Hbgr Hf. rewrite best_unfold, bool_decide_true by done.
    cbv zeta. rewrite Hbgr. simpl. rewrite <- Hf. by apply serve_frame_scaled.
  - destruct Hscales as ((Hrows & Hcols) & Hh & _).
    apply trunc_near_round; lia.
Qed.

Lemma resize_keeps_aspect_witness :
  "front"%string ∈ config_cameras Sample.app
  /\ requested_height {[ "h" := "360" ]}%string (rows Sample.live) 360
  /\ scales_to Sample.live 360
  /\ get_current_frame Sample.app "front" = Some Sample.live
  /\ latest_frame Sample.app "front" {[ "h" := "360" ]}%string
     = Ok (Image 200 (Jpeg {| rows := 360; cols := 640; blank := false |})).
Proof.
  assert (Hknown : "front"%string ∈ config_cameras Sample.app)
    by (by_computation).
  assert (Hreq : requested_height {[ "h" := "360" ]}%string
                   (rows Sample.live) 360)
    by (vm_compute; reflexivity).
  assert (Hscales : scales_to Sample.live 360)
    by (unfold scales_to, sized; vm_compute; repeat split; discriminate).
  split; [exact Hknown|]. split; [exact Hreq|]. split; [exact Hscales|].
  split; [reflexivity|].
  apply (resize_keeps_aspect Sample.app "front" "person"
           {[ "h" := "360" ]}%string Sample.live 360 Hknown Hreq Hscales).
  reflexivity.
Defined.

Example image_samples :
  latest_frame Sample.app "front" ∅
  = Ok (Image 200 (Jpeg {| rows := 720; cols := 1280; blank := false |}))
  /\ best Sample.app "front" "person" {[ "crop" := "1" ]}%string
     = Ok (Image 200 (Jpeg {| rows := 400; cols := 400; blank := false |}))
  /\ best Sample.app "front" "person" {[ "crop" := "１" ]}%string
     = Ok (Image 200 (Jpeg {| rows := 400; cols := 400; blank := false |}))
  /\ best Sample.app "front" "person" {[ "h" := "100" ]}%string
     = Ok (Image 200 (Jpeg {| rows := 100; cols := 177; blank := false |}))
  /\ latest_frame Sample.app "front" {[ "h" := "３６０" ]}%string
     = Ok (Image 200 (Jpeg {| rows := 360; cols := 640; blank := false |}))
  /\ best Sample.app "nowhere" "person" ∅
     = Ok (Text 404 "Camera named nowhere not found").
Proof. vm_compute. repeat split. Qed.

(** The statement of C4 fails at the requested height 0 on a frame of
    1280 by 720, and at the requested height 1 on an upright frame of 720 by
    1280, whose width would be 0: OpenCV refuses both sizes. *)
Lemma resize_claim_counterexample :
  (get_current_frame Sample.app "front" = Some Sample.live
   /\ latest_frame Sample.app "front" {[ "h" := "0" ]}%string = Raise Cv2Error)
  /\ (get_current_frame Sample.app "hall" = Some Sample.portrait
      /\ latest_frame Sample.app "hall" {[ "h" := "1" ]}%string
         = Raise Cv2Error).
Proof. repeat split; vm_compute; reflexivity. Qed.

(** ** The default crop and the placeholder *)

Lemma best_picture_nonempty (o : BestObject) (bgr : Frame) :
  best_picture o = Ok bgr ->
  0 < rows bgr <= int_max /\ 0 < cols bgr <= int_max.
Proof.
  unfold best_picture. destruct (best_frame o) as [f|].
  - unfold cvtColor_yuv2bgr_i420, frame_empty.
    destruct (Z.leb_spec (rows f) 0); [done|].
    destruct (Z.leb_spec (cols f) 0); [done|].
    destruct (Z.ltb_spec int_max (rows f)); [done|].
    destruct (Z.ltb_spec int_max (cols f)); [done|].
    destruct (Z.eqb_spec (cols f mod 2) 0); [|done].
    destruct (Z.eqb_spec (rows f mod 3) 0) as [Hmod|]; [|done].
    simpl. intros [= <-]. simpl. split; [|done].
    apply Z.mod_divide in Hmod as [k Hk]; [|lia]. split.
    + apply Z.div_str_pos. lia.
    + apply Z.div_le_upper_bound; lia.
  - intros [= <-]. vm_compute. repeat split; discriminate.
Qed.

Lemma crop_default (f : Frame) :
  0 < rows f -> 0 < cols f ->
  crop_frame f default_region
  = {| rows := Z.min 300 (rows f); cols := Z.min 300 (cols f);
       blank := blank f |}.
Proof.
  intros Hrows Hcols. unfold crop_frame, default_region, slice_len, slice_bound.
  simpl. f_equal; lia.
Qed.

(** C7 (amended).  Take a [best.jpg] request with the crop switched on, to a
    known camera, for which no region is recorded and whose picture is at
    hand: the placeholder, or the best frame as OpenCV converts it.  The
    handler crops to the fixed region [0, 0, 300, 300]: the top left 300 by
    300 pixels of the picture, fewer where the picture is smaller, and not
    the full frame.  It answers with that crop when no height is asked for,
    and with the crop scaled when a height from 1 to 8192 is asked for that
    leaves at least one pixel of width and no more than 8192. *)
Theorem best_crop_default_region (app : App) (camera_name label : string)
    (args : gmap string string) (bgr : Frame) :
  camera_name ∈ config_cameras app ->
  best_region (get_best app camera_name label) = None ->
  crop_requested args = true ->
  best_picture (get_best app camera_name label) = Ok bgr ->
  let cropped := {| rows := Z.min 300 (rows bgr); cols := Z.min 300 (cols bgr);
                    blank := blank bgr |} in
  (args !! "h"%string = None ->
   best app camera_name label args = Ok (Image 200 (Jpeg cropped)))
  /\ (forall h,
        requested_height args (rows cropped) h ->
        scales_to cropped h ->
        best app camera_name label args
        = Ok (Image 200 (Jpeg {| rows := h;
                                 cols := h * cols cropped ÷ rows cropped;
                                 blank := blank bgr |}))).
Proof.
  intros Hknown Hregion Hcrop Hbgr cropped.
  destruct (best_picture_nonempty _ _ Hbgr) as [Hrows Hcols].
  assert (Hserve : best app camera_name label args = serve_frame args cropped).
  { rewrite best_unfold, bool_decide_true by done. cbv zeta.
    rewrite Hbgr, Hcrop, Hregion.
    change (serve_frame args (crop_frame bgr default_region)
            = serve_frame args cropped).
    by rewrite crop_default by lia. }
  rewrite Hserve. split.
  - intros Hnone.
    assert (Hown : rows cropped * cols cropped ÷ rows cropped = cols cropped)
      by (rewrite Z.mul_comm, Z.quot_mul; simpl; lia).
    rewrite (serve_frame_ok args cropped (rows cropped)); rewrite ?Hown;
      simpl; try lia.
    + done.
    + unfold requested_height. by rewrite Hnone.
    + nia.
  - intros h Hreq Hscales. by apply (serve_frame_scaled args cropped h).
Qed.

Lemma best_crop_default_region_witness :
  "back"%string ∈ config_cameras Sample.app
  /\ best_region (get_best Sample.app "back" "person") = None
  /\ crop_requested {[ "crop" := "1" ]}%string = true
  /\ best_picture (get_best Sample.app "back" "person") = Ok placeholder
  /\ best Sample.app "back" "person" {[ "crop" := "1" ]}%string
     = Ok (Image 200 (Jpeg {| rows := 300; cols := 300; blank := true |})).
Proof.
  assert (Hknown : "back"%string ∈ config_cameras Sample.app)
    by (by_computation).
  assert (Hregion : best_region (get_best Sample.app "back" "person") = None)
    by reflexivity.
  assert (Hcrop : crop_requested {[ "crop" := "1" ]}%string = true)
    by (vm_compute; reflexivity).
  assert (Hpicture : best_picture (get_best Sample.app "back" "person")
                     = Ok placeholder)
    by reflexivity.
  split; [exact Hknown|]. split; [exact Hregion|]. split; [exact Hcrop|].
  split; [exact Hpicture|].
  apply (proj1 (best_crop_default_region Sample.app "back" "person"
                  {[ "crop" := "1" ]}%string placeholder Hknown
                  Hregion Hcrop Hpicture)).
  vm_compute. reflexivity.
Defined.

(** The statement of C7 fails at [back/person/best.jpg?crop=1], where
    nothing is tracked: the picture is the placeholder of 720 by 1280 and
    the answer is its 300 by 300 corner, not a region of the size of the
    frame.  With [h=0] added, the request fails. *)
Lemma best_crop_counterexample :
  get_best Sample.app "back" "person"
    = {| best_frame := None; best_region := None |}
  /\ best_picture (get_best Sample.app "back" "person") = Ok placeholder
  /\ best Sample.app "back" "person" {[ "crop" := "1" ]}%string
     = Ok (Image 200 (Jpeg {| rows := 300; cols := 300; blank := true |}))
  /\ crop_frame placeholder default_region ≠ placeholder
  /\ best Sample.app "back" "person" {[ "crop" := "1"; "h" := "0" ]}%string
     = Raise Cv2Error.
Proof.
  repeat split; try (vm_compute; reflexivity). vm_compute. discriminate.
Qed.

(** C8 (amended).  Take a request to a known camera for which no live frame,
    or no best object, is available yet, and whose height is a positive
    integer that leaves the placeholder a width of at most 8192 (the height
    is what [int] reads from the parameter [h], or that of the picture when
    the parameter is absent).  Then [latest.jpg] and [best.jpg] do not fail:
    they answer with the blank placeholder of 720 by 1280, scaled to the
    height asked for; [best.jpg] with the crop switched on answers with the
    blank 300 by 300 corner of it, scaled likewise. *)
Theorem placeholder_when_nothing_yet (app : App) (camera_name label : string)
    (args : gmap string string) (h : Z) :
  camera_name ∈ config_cameras app ->
  0 < h -> h * 1280 ÷ 720 <= max_side ->
  (get_current_frame app camera_name = None ->
   requested_height args 720 h ->
   latest_frame app camera_name args
   = Ok (Image 200 (Jpeg {| rows := h; cols := h * 1280 ÷ 720;
                            blank := true |})))
  /\ (get_best app camera_name label
        = {| best_frame := None; best_region := None |} ->
      requested_height args (if crop_requested args then 300 else 720) h ->
      best app camera_name label args
      = Ok (Image 200 (Jpeg {| rows := h;
                               cols := if crop_requested args then h
                                       else h * 1280 ÷ 720;
                               blank := true |}))).
Proof.
  intros Hknown Hh Hwidth.
  assert (Hmax : 720 <= int_max) by (vm_compute; discriminate).
  pose proof max_side_int_max as Hside.
  assert (Hle : h <= h * 1280 ÷ 720).
  { rewrite Z.quot_div_nonneg by lia. apply Z.div_le_lower_bound; lia. }
  split.
  - intros Hnone Hreq. rewrite latest_frame_unfold, bool_decide_true by done.
    rewrite Hnone.
    change (serve_frame args placeholder = Ok (Image 200 (Jpeg
              {| rows := h; cols := h * cols placeholder ÷ rows placeholder;
                 blank := blank placeholder |}))).
    apply serve_frame_ok; simpl; try done; lia.
  - intros Hbest Hreq. rewrite best_unfold, bool_decide_true by done.
    cbv zeta. rewrite Hbest.
    destruct (crop_requested args).
    + set (corner := {| rows := 300; cols := 300; blank := true |}).
      change (serve_frame args corner = Ok (Image 200 (Jpeg
                {| rows := h; cols := h; blank := blank corner |}))).
      assert (Hown : h * 300 ÷ 300 = h) by (rewrite Z.quot_mul; lia).
      rewrite (serve_frame_ok args corner h); simpl; rewrite ?Hown;
        try done; lia.
    + change (serve_frame args placeholder = Ok (Image 200 (Jpeg
                {| rows := h; cols := h * cols placeholder ÷ rows placeholder;
                   blank := blank placeholder |}))).
      apply serve_frame_ok; simpl; try done; lia.
Qed.

Lemma placeholder_when_nothing_yet_witness :
  "back"%string ∈ config_cameras Sample.app
  /\ get_current_frame Sample.app "back" = None
  /\ requested_height ∅ 720 720
  /\ latest_frame Sample.app "back" ∅
     = Ok (Image 200 (Jpeg {| rows := 720; cols := 1280; blank := true |})).
Proof.
  assert (Hknown : "back"%string ∈ config_cameras Sample.app)
    by (by_computation).
  split; [exact Hknown|]. do 2 (split; [vm_compute; reflexivity|]).
  assert (Hpos : 0 < 720) by lia.
  assert (Hwidth : 720 * 1280 ÷ 720 <= max_side) by (vm_compute; discriminate).
  apply (proj1 (placeholder_when_nothing_yet Sample.app "back" "person" ∅ 720
                  Hknown Hpos Hwidth));
    vm_compute; reflexivity.
Defined.

(** The statement of C8 fails at [back/latest.jpg?h=0] and at
    [back/person/best.jpg?h=abc]: the camera is known, it has no frame and
    no best object, and both requests end in an exception. *)
Lemma placeholder_claim_counterexample :
  "back"%string ∈ config_cameras Sample.app
  /\ get_current_frame Sample.app "back" = None
  /\ best_frame (get_best Sample.app "back" "person") = None
  /\ latest_frame Sample.app "back" {[ "h" := "0" ]}%string = Raise Cv2Error
  /\ best Sample.app "back" "person" {[ "h" := "abc" ]}%string
     = Raise ValueError.
Proof.
  split; [by_computation|]. repeat split; vm_compute; reflexivity.
Qed.

(** ** Unknown cameras *)

Lemma unknown_camera_images (app : App) (camera_name label : string)
    (args : gmap string string) :
  camera_name ∉ config_cameras app ->
  best app camera_name label args = Ok (camera_not_found camera_name)
  /\ latest_frame app camera_name args = Ok (camera_not_found camera_name).
Proof.
  intros Hunknown. unfold best, latest_frame.
  by rewrite !bool_decide_false by done.
Qed.

Lemma unknown_camera_stream (app : App) (camera_name : string)
    (args : gmap string string) (fps height : Z) :
  camera_name ∉ config_cameras app ->
  int_of_arg args "fps" "3" = Ok fps -> int_of_arg args "h" "360" = Ok height ->
  mjpeg_feed app camera_name args = Ok (camera_not_found camera_name).
Proof.
  intros Hunknown Hfps Hh. unfold mjpeg_feed. rewrite Hfps, Hh. simpl.
  by rewrite bool_decide_false by done.
Qed.

(** C9: the camera [garage] is not configured; [latest.jpg] and [best.jpg]
    answer 404 whatever the parameters, and so does the stream route when
    its parameters are integers, but [/garage?fps=fast] ends in a
    [ValueError] before the camera is looked up. *)
Theorem mjpeg_feed_unknown_camera_fault :
("garage"%string ∉ config_cameras Sample.app)
  /\ mjpeg_feed Sample.app "garage" {[ "fps" := "fast" ]}%string
     = Raise ValueError
  /\ mjpeg_feed Sample.app "garage" {[ "fps" := "5" ]}%string
     = Ok (Text 404 "Camera named garage not found")
  /\ latest_frame Sample.app "garage" {[ "h" := "tall" ]}%string
     = Ok (Text 404 "Camera named garage not found")
  /\ best Sample.app "garage" "person" {[ "h" := "tall" ]}%string
     = Ok (Text 404 "Camera named garage not found").
Proof.
  split; [by_computation|]. repeat split; vm_compute; reflexivity.
Qed.

(** ** The stream *)

(** The sign of a double that comes out of rounding is the sign that went
    in. *)
Lemma binary_round_aux_sign (s : bool) (m e : Z) (l : location) :
  match binary_round_aux Double.prec Double.emax s m e l with
  | S754_zero s' | S754_infinity s' | S754_finite s' _ _ => s' = s
  | S754_nan => True
  end.
Proof.
  unfold binary_round_aux.
  destruct (shr_fexp _ _ m e l) as [mrs' e'].
  destruct (shr_fexp _ _ _ e' loc_Exact) as [mrs'' e''].
  destruct (shr_m mrs''); [done| |done]. by destruct (_ <=? _).
Qed.

Lemma true_div_positive (fps : Z) :
  0 < fps -> Double.negative (Double.true_div 1 fps) = false.
Proof.
  intros Hfps. unfold Double.true_div.
  change (1 =? 0) with false. change (1 <? 0) with false. cbv iota.
  destruct (Z.ltb_spec fps 0) as [|_]; [lia|]. cbn [xorb].
  destruct (SFdiv_core_binary _ _ _ _ _ _) as [[q e] l].
  pose proof (binary_round_aux_sign false q e l) as Hsign.
  by destruct (binary_round_aux _ _ false q e l) as [s|s| |s m' e'];
    try subst s.
Qed.

Lemma value_nonneg (x : spec_float) :
  Double.negative x = false -> (0 <= Double.value x)%Q.
Proof.
  destruct x as [s|s| |s m e]; try done. destruct s; [done|]. intros _.
  unfold Double.value, Double.magnitude.
  destruct (0 <=? e); unfold Qle; simpl; [|lia].
  pose proof (Z.pow_nonneg 2 e). nia.
Qed.

Lemma sleep_interval_ok (fps : Z) :
  0 < fps -> sleep_interval fps = Ok (interval fps).
Proof.
  intros Hfps. unfold sleep_interval.
  destruct (Z.eqb_spec fps 0); [lia|]. by rewrite true_div_positive.
Qed.

Lemma sleep_interval_inv (fps : Z) (d : Q) :
  sleep_interval fps = Ok d -> d = interval fps /\ (0 <= d)%Q.
Proof.
  unfold sleep_interval.
  destruct (Z.eqb_spec fps 0); [done|].
  destruct (Double.negative _) eqn:Hneg; [done|].
  intros [= <-]. split; [done|]. by apply value_nonneg.
Qed.

(** C10.  The stream route takes [fps=0] for a known camera without
    complaint: the answer is the streaming response, not an error response.
    The generator behind it then raises [ZeroDivisionError] in its first
    turn, before any sleep, fetch or chunk, however long it is run. *)
Theorem mjpeg_zero_fps (app : App) (camera_name s : string)
    (args : gmap string string) (height : Z)
    (source : nat -> option Frame) (n : nat) :
  camera_name ∈ config_cameras app ->
  args !! "fps"%string = Some s -> Py.int s = Some 0 ->
  int_of_arg args "h" "360" = Ok height ->
  mjpeg_feed app camera_name args = Ok (Multipart camera_name 0 height)
  /\ imagestream 0 height source (S n) = ([], Some ZeroDivisionError)
  /\ yielded (fst (imagestream 0 height source (S n))) = [].
Proof.
  intros Hknown Hs Hzero Hh. split; [|done].
  assert (Hfps : int_of_arg args "fps" "3" = Ok 0).
  { unfold int_of_arg. rewrite Hs. simpl. by rewrite Hzero. }
  unfold mjpeg_feed. rewrite Hfps, Hh. simpl.
  by rewrite bool_decide_true by done.
Qed.

Lemma mjpeg_zero_fps_witness :
  "front"%string ∈ config_cameras Sample.app
  /\ Py.int "0" = Some 0
  /\ mjpeg_feed Sample.app "front" {[ "fps" := "0" ]}%string
     = Ok (Multipart "front" 0 360)
  /\ imagestream 0 360 (fun _ => Some Sample.live) 1
     = ([], Some ZeroDivisionError)
  /\ yielded (fst (imagestream 0 360 (fun _ => Some Sample.live) 1)) = [].
Proof.
  assert (Hknown : "front"%string ∈ config_cameras Sample.app)
    by (by_computation).
  assert (Hfps : ({[ "fps" := "0" ]} : gmap string string) !! "fps"%string
                 = Some "0"%string)
    by (vm_compute; reflexivity).
  assert (Hzero : Py.int "0" = Some 0) by (vm_compute; reflexivity).
  assert (Hh : int_of_arg {[ "fps" := "0" ]}%string "h" "360" = Ok 360)
    by (vm_compute; reflexivity).
  split; [exact Hknown|]. split; [exact Hzero|].
  exact (mjpeg_zero_fps Sample.app "front" "0" {[ "fps" := "0" ]}%string 360
           (fun _ => Some Sample.live) 0 Hknown Hfps Hzero Hh).
Defined.

Lemma render_ok (height : Z) (fetched : option Frame) :
  0 < height <= int_max -> height * 16 ÷ 9 <= int_max ->
  (forall f, fetched = Some f ->
     0 < rows f /\ 0 < cols f /\ rows f <= height * cols f
     /\ height * cols f ÷ rows f <= int_max) ->
  exists jpg, render height fetched = Ok jpg.
Proof.
  intros Hh Hplace Hgood. unfold render.
  assert (Hserve : forall f,
    0 < rows f -> 0 < cols f -> rows f <= height * cols f ->
    height * cols f ÷ rows f <= int_max ->
    exists jpg,
      (width ← int_truediv (height * cols f) (rows f);
       frame ← cv2_resize f width height;
       cv2_imencode frame) = Ok jpg).
  { intros f Hrows Hcols Hwide Hwidth. unfold int_truediv.
    destruct (Z.eqb_spec (rows f) 0); [lia|]. simpl.
    assert (Hw : 0 < height * cols f ÷ rows f).
    { rewrite Z.quot_div_nonneg by lia. apply Z.div_str_pos. lia. }
    unfold cv2_resize, frame_empty.
    destruct (Z.leb_spec (rows f) 0); [lia|].
    destruct (Z.leb_spec (cols f) 0); [lia|].
    destruct (Z.leb_spec (height * cols f ÷ rows f) 0); [lia|].
    destruct (Z.leb_spec height 0); [lia|].
    destruct (Z.ltb_spec int_max (height * cols f ÷ rows f)); [lia|].
    destruct (Z.ltb_spec int_max height); [lia|]. simpl.
    unfold cv2_imencode, frame_empty. simpl.
    destruct (Z.leb_spec height 0); [lia|].
    destruct (Z.leb_spec (height * cols f ÷ rows f) 0); [lia|].
    by eexists. }
  destruct fetched as [f|].
  - destruct (Hgood f eq_refl) as (Hrows & Hcols & Hwide & Hwidth). simpl.
    by apply Hserve.
  - unfold int_truediv. simpl.
    assert (Hw : 0 < height * 16 ÷ 9).
    { rewrite Z.quot_div_nonneg by lia. apply Z.div_str_pos. lia. }
    unfold np_zeros.
    destruct (Z.ltb_spec height 0); [lia|].
    destruct (Z.ltb_spec (height * 16 ÷ 9) 0); [lia|]. simpl.
    apply (Hserve {| rows := height; cols := height * 16 ÷ 9; blank := true |});
      simpl; try nia.
    by rewrite (Z.mul_comm height (height * 16 ÷ 9)), Z.quot_mul by lia.
Qed.

Lemma height_within (height : Z) :
  0 < height -> height * 16 ÷ 9 <= max_side -> height <= max_side.
Proof.
  intros Hh Hplace.
  assert (Hle : height <= height * 16 ÷ 9); [|lia].
  rewrite Z.quot_div_nonneg by lia. apply Z.div_le_lower_bound; lia.
Qed.

Lemma render_scales (height : Z) (fetched : option Frame) :
  0 < height -> height * 16 ÷ 9 <= max_side ->
  (forall f, fetched = Some f -> scales_to f height) ->
  exists jpg, render height fetched = Ok jpg.
Proof.
  intros Hh Hplace Hgood. pose proof max_side_int_max.
  pose proof (height_within height Hh Hplace).
  apply render_ok; [lia|lia|]. intros f Hf.
  destruct (Hgood f Hf) as ((Hrows & Hcols) & _ & Hwide & Hwidth). lia.
Qed.

(** Whatever the parameters, a run is a paced trace, possibly followed by
    the sleep and the fetch of a turn that failed; a run that sleeps at all
    sleeps the interval, which is not negative. *)
Lemma imagestream_shape (fps height : Z) (source : nat -> option Frame)
    (n : nat) :
  exists chunks tail,
    fst (imagestream fps height source n) = paced (interval fps) chunks ++ tail
    /\ (tail = [] \/ tail = [Sleep (interval fps); Fetch])
    /\ (chunks = [] /\ tail = [] \/ (0 <= interval fps)%Q).
Proof.
  revert source. induction n as [|n IH]; intros source.
  - exists [], []. split; [done|]. split; by left.
  - cbn [imagestream]. unfold imagestream_turn.
    destruct (sleep_interval fps) as [d|e] eqn:Hsleep.
    + apply sleep_interval_inv in Hsleep as [-> Hd].
      destruct (render height (source 0%nat)) as [jpg|e].
      * destruct (IH (fun i => source (S i)))
          as (chunks & tail & Htrace & Htail & _).
        destruct (imagestream fps height (fun i => source (S i)) n)
          as [rest e'].
        simpl in Htrace. subst rest.
        exists (jpg :: chunks), tail. split; [done|]. split; [done|by right].
      * exists [], [Sleep (interval fps); Fetch].
        split; [done|]. split; by right.
    + exists [], []. split; [done|]. split; by left.
Qed.

(** With a positive rate, a positive height and frames that can be scaled,
    no turn fails. *)
Lemma imagestream_runs (fps height : Z) (source : nat -> option Frame)
    (n : nat) :
  0 < fps -> 0 < height -> scalable height source ->
  exists chunks,
    length chunks = n
    /\ imagestream fps height source n = (paced (interval fps) chunks, None).
Proof.
  intros Hfps Hh. revert source. induction n as [|n IH]; intros source Hgood.
  - by exists [].
  - cbn [imagestream]. unfold imagestream_turn.
    rewrite sleep_interval_ok by done.
    destruct (render_scales height (source 0%nat) Hh (proj1 Hgood))
      as [jpg Hjpg].
    { intros f Hf. by apply (proj2 Hgood 0%nat). }
    rewrite Hjpg.
    destruct (IH (fun i => source (S i))) as (chunks & Hlen & Hrun).
    { split; [apply Hgood|]. intros i f Hf. by apply (proj2 Hgood (S i)). }
    rewrite Hrun. exists (jpg :: chunks). split; [simpl; lia|done].
Qed.

Lemma paced_sleeps (d : Q) (chunks : list jpeg) (tail : list action) :
  tail = [] \/ tail = [Sleep d; Fetch] ->
  Forall (fun a => forall q, a = Sleep q -> q = d) (paced d chunks ++ tail).
Proof.
  intros Htail. induction chunks as [|j chunks IH]; simpl.
  - destruct Htail as [->| ->]; repeat constructor; congruence.
  - repeat constructor; try congruence. exact IH.
Qed.

Lemma paced_starts_asleep (d : Q) (chunks : list jpeg) (tail b c : list action)
    (j : jpeg) :
  tail = [] \/ tail = [Sleep d; Fetch] ->
  paced d chunks ++ tail = b ++ Yield j :: c ->
  exists b', b = Sleep d :: b'.
Proof.
  intros Htail Heq. destruct chunks as [|j' chunks]; simpl in Heq.
  - destruct Htail as [->| ->]; destruct b as [|x b]; simplify_eq/=.
    by eexists.
  - destruct b as [|x b]; simplify_eq/=. by eexists.
Qed.

Lemma slept_nonneg (d : Q) (acts : list action) :
  (0 <= d)%Q -> Forall (fun a => forall q, a = Sleep q -> q = d) acts ->
  (0 <= slept acts)%Q.
Proof.
  intros Hd. induction 1 as [|a acts Ha Hacts IH]; simpl; [lra|].
  destruct a as [q| |j]; try done. rewrite (Ha q eq_refl). lra.
Qed.

(** Between two chunks of a run the generator sleeps. *)
Lemma paced_gap (d : Q) (chunks : list jpeg) (tail a b c : list action)
    (j1 j2 : jpeg) :
  (0 <= d)%Q -> tail = [] \/ tail = [Sleep d; Fetch] ->
  paced d chunks ++ tail = a ++ Yield j1 :: b ++ Yield j2 :: c ->
  (d <= slept b)%Q.
Proof.
  intros Hd Htail. revert a. induction chunks as [|j chunks IH]; intros a Heq.
  - simpl in Heq. destruct Htail as [->| ->].
    + by destruct a.
    + destruct a as [|x [|y [|z a]]]; simplify_eq/=.
  - simpl in Heq. destruct a as [|x [|y [|z a]]]; simpl in Heq;
      try discriminate Heq.
    + injection Heq as _ _ _ Heq.
      pose proof (paced_sleeps d chunks tail Htail) as Hall.
      destruct (paced_starts_asleep d chunks tail b c j2 Htail Heq)
        as [b' ->].
      unfold paced in Hall. rewrite Heq in Hall. simpl in Hall.
      apply Forall_cons in Hall as [_ Hall].
      apply Forall_app in Hall as [Hb' _].
      pose proof (slept_nonneg d b' Hd Hb'). simpl. lra.
    + injection Heq as _ _ _ Heq. by apply (IH a).
Qed.

Lemma yielded_paced (d : Q) (chunks : list jpeg) :
  yielded (paced d chunks) = chunks.
Proof. induction chunks as [|j chunks IH]; [done|]. simpl. by f_equal. Qed.

(** C5 (amended).  Within one stream every chunk that is handed out comes
    right after a sleep of [1/fps] seconds (the quotient as Python takes it,
    a double) and the fetch that follows it, so that between two chunks
    handed out the generator has slept [1/fps] seconds at least.  When the
    rate is positive, the height is positive and leaves the placeholder of
    16 to 9 a width of at most 8192, and each frame of the processor has
    sides from 1 to 8192 and scales to that height with a width from 1 to
    8192, the generator never ends by itself: run for any number of turns,
    it hands out that many chunks and raises nothing.  (Otherwise it can
    end with an exception, as it does at once for the rate 0.) *)
Theorem stream_paced_and_endless (fps height : Z)
    (source : nat -> option Frame) (n : nat) :
  (exists chunks tail,
     fst (imagestream fps height source n)
       = paced (interval fps) chunks ++ tail
     /\ (tail = [] \/ tail = [Sleep (interval fps); Fetch]))
  /\ (forall a j1 b j2 c,
        fst (imagestream fps height source n)
          = a ++ Yield j1 :: b ++ Yield j2 :: c ->
        (interval fps <= slept b)%Q)
  /\ (0 < fps -> 0 < height -> scalable height source ->
      snd (imagestream fps height source n) = None
      /\ length (yielded (fst (imagestream fps height source n))) = n).
Proof.
  destruct (imagestream_shape fps height source n)
    as (chunks & tail & Htrace & Htail & Hsign).
  split; [by exists chunks, tail|]. split.
  - intros a j1 b j2 c Heq. rewrite Htrace in Heq.
    destruct Hsign as [[-> ->]|Hsign]; [by destruct a|].
    by apply (paced_gap _ chunks tail a b c j1 j2).
  - intros Hfps Hh Hgood.
    destruct (imagestream_runs fps height source n Hfps Hh Hgood)
      as (chunks' & Hlen & Hrun).
    rewrite Hrun. simpl. by rewrite yielded_paced.
Qed.

Lemma stream_paced_and_endless_witness :
  0 < 5 /\ 0 < 360 /\ scalable 360 (fun _ => Some Sample.live)
  /\ snd (imagestream 5 360 (fun _ => Some Sample.live) 3) = None
  /\ length (yielded (fst (imagestream 5 360 (fun _ => Some Sample.live) 3)))
     = 3%nat.
Proof.
  assert (Hfps : 0 < 5) by lia. assert (Hh : 0 < 360) by lia.
  assert (Hgood : scalable 360 (fun _ => Some Sample.live)).
  { split; [vm_compute; discriminate|]. intros i f [= <-].
    unfold scales_to, sized. vm_compute. repeat split; discriminate. }
  split; [exact Hfps|]. split; [exact Hh|]. split; [exact Hgood|].
  exact (proj2 (proj2 (stream_paced_and_endless 5 360
                         (fun _ => Some Sample.live) 3)) Hfps Hh Hgood).
Defined.

Example stream_samples :
  imagestream 5 360 (fun _ => None) 2
  = ([Sleep (interval 5); Fetch;
      Yield (Jpeg {| rows := 360; cols := 640; blank := true |});
      Sleep (interval 5); Fetch;
      Yield (Jpeg {| rows := 360; cols := 640; blank := true |})], None)
  /\ interval 5 = (7205759403792794 # 36028797018963968)%Q
  /\ imagestream (-2) 360 (fun _ => None) 2 = ([], Some ValueError)
  /\ imagestream 5 0 (fun _ => None) 2
     = ([Sleep (interval 5); Fetch], Some ZeroDivisionError)
  /\ imagestream 5 (-1) (fun _ => None) 2
     = ([Sleep (interval 5); Fetch], Some ValueError).
Proof. vm_compute. repeat split. Qed.

(** The statement of C5 fails for the rate 0, where the generator ends in
    its first turn without a chunk, and for the height 0 while the camera
    has no frame, where it ends after its first sleep. *)
Lemma stream_claim_counterexample :
  imagestream 0 360 (fun _ => Some Sample.live) 1
    = ([], Some ZeroDivisionError)
  /\ imagestream 5 0 (fun _ => None) 1
     = ([Sleep (interval 5); Fetch], Some ZeroDivisionError).
Proof. split; vm_compute; reflexivity. Qed.

(** ** The stats snapshot *)

Lemma camera_loop_snoc (items : list (string * CameraMetrics))
    (name : string) (m : CameraMetrics) :
  camera_loop (items ++ [(name, m)])
  = (Double.add (fst (camera_loop items)) (detection_fps m),
     <[name := OfCamera (camera_entry m)]> (snd (camera_loop items))).
Proof.
  unfold camera_loop. rewrite fold_left_app. simpl.
  by destruct (fold_left _ items _).
Qed.






Example stats_samples :
  Double.round2 (Double.sum [Double.true_div 1 1000; Double.true_div 14 1000])
  = Double.true_div 1 100
  /\ Double.round2 (Double.true_div 125 1000) = Double.true_div 12 100
  /\ Double.round2 (Double.true_div 375 1000) = Double.true_div 38 100
  /\ Double.round2 (Double.true_div 2675 1000) = Double.true_div 267 100
  /\ Double.round2 (Double.mul (Double.true_div 125 1000000)
                      (Double.of_int 1000)) = Double.true_div 12 100
  /\ Double.round2 (Double.true_div (-1) 1000) = S754_zero true.
Proof. vm_compute. repeat split. Qed.


(** * Further properties of the handlers *)

(** ** More on the event query *)

Lemma sql_limit_mono {A : Type} (n m : Z) (l : list A) :
  0 <= n <= m \/ m < 0 -> sql_limit n l `prefix_of` sql_limit m l.
Proof.
  intros Hnm. unfold sql_limit.
  destruct (Z.ltb_spec m 0) as [Hm|Hm].
  - apply sql_limit_prefix.
  - destruct (Z.ltb_spec n 0) as [Hn|Hn]; [lia|].
    replace (take (Z.to_nat n) l)
      with (take (Z.to_nat n) (take (Z.to_nat m) l)).
    + apply prefix_take.
    + rewrite take_take. f_equal. lia.
Qed.

Lemma clause_list_limit (args : gmap string string) (s : string) :
  clause_list (<["limit"%string := s]> args) = clause_list args.
Proof. unfold clause_list. by rewrite !lookup_insert_ne by done. Qed.

(** Every event of an answer of [/events] is a stored event, and none comes
    back more often than it is stored. *)
Theorem events_within_store (sql_integer : string -> option Z)
    (db : list Event.t) (args : gmap string string) (l : list Event.t) :
  events sql_integer db args = Ok l -> l ⊆+ db.
Proof.
  intros Hl. apply events_ok_inv in Hl as (n & rows & _ & Hsub & _ & ->).
  etrans; [apply sublist_submseteq, sql_limit_sublist|].
  rewrite merge_sort_Permutation. by apply sublist_submseteq.
Qed.

Lemma events_within_store_witness :
  events Sqlite.integer_of_text Sample.db Sample.front_one = Ok [Sample.ev2]
  /\ [Sample.ev2] ⊆+ Sample.db.
Proof.
  assert (H : events Sqlite.integer_of_text Sample.db Sample.front_one
              = Ok [Sample.ev2]) by (vm_compute; reflexivity).
  split; [exact H|].
  exact (events_within_store Sqlite.integer_of_text Sample.db Sample.front_one
           [Sample.ev2] H).
Defined.

(** Paging by the limit is coherent on a store whose events all start at
    different times: with the other parameters unchanged, when the request
    with a limit [m] is answered, so is the request with a limit [n >= 0]
    that is no larger, or any [n >= 0] when [m] is negative (which puts no
    bound), and its answer is the beginning of the other one. *)
Theorem events_limit_prefix (sql_integer : string -> option Z)
    (db : list Event.t) (args : gmap string string) (s1 s2 : string)
    (n m : Z) (l2 : list Event.t) :
  sql_integer s1 = Some n -> sql_integer s2 = Some m ->
  0 <= n <= m \/ m < 0 ->
  NoDup (map Event.start_time db) ->
  events sql_integer db (<["limit"%string := s2]> args) = Ok l2 ->
  exists l1,
    events sql_integer db (<["limit"%string := s1]> args) = Ok l1
    /\ l1 `prefix_of` l2.
Proof.
  intros H1 H2 Hnm _. rewrite !events_unfold. unfold condition, limit_of.
  rewrite !clause_list_limit, !lookup_insert_eq.
  unfold select_where_order_limit. destruct (bindable _); [|done].
  simpl. rewrite H1, H2. simpl.
  destruct (Z.eqb_spec m 0) as [->|Hm].
  - intros [= <-]. assert (n = 0) as -> by lia. by exists [].
  - destruct (where_rows _ db) as [rows|x]; [|done]. simpl. intros [= <-].
    destruct (Z.eqb_spec n 0) as [->|Hn].
    + exists []. split; [done|]. apply prefix_nil.
    + eexists. split; [done|]. by apply sql_limit_mono.
Qed.

Lemma events_limit_prefix_witness :
  Sqlite.integer_of_text "1" = Some 1 /\ Sqlite.integer_of_text "3" = Some 3
  /\ NoDup (map Event.start_time Sample.db)
  /\ events Sqlite.integer_of_text Sample.db
       (<["limit"%string := "3"%string]> ∅)
     = Ok [Sample.ev4; Sample.ev3; Sample.ev2]
  /\ exists l1,
       events Sqlite.integer_of_text Sample.db
         (<["limit"%string := "1"%string]> ∅) = Ok l1
       /\ l1 `prefix_of` [Sample.ev4; Sample.ev3; Sample.ev2].
Proof.
  assert (H1 : Sqlite.integer_of_text "1" = Some 1) by reflexivity.
  assert (H3 : Sqlite.integer_of_text "3" = Some 3) by reflexivity.
  assert (Hnodup : NoDup (map Event.start_time Sample.db)) by by_computation.
  assert (Hl : events Sqlite.integer_of_text Sample.db
                 (<["limit"%string := "3"%string]> ∅)
               = Ok [Sample.ev4; Sample.ev3; Sample.ev2])
    by (vm_compute; reflexivity).
  split; [exact H1|]. split; [exact H3|]. split; [exact Hnodup|].
  split; [exact Hl|].
  apply (events_limit_prefix Sqlite.integer_of_text Sample.db ∅
           "1" "3" 1 3 [Sample.ev4; Sample.ev3; Sample.ev2] H1 H3);
    [left; lia|exact Hnodup|exact Hl].
Defined.

(** A filter given as the empty text, or a time bound given as the integer
    zero, is not applied: the answer is that of the same request without
    the parameter. *)
Theorem events_falsy_filter_dropped (sql_integer : string -> option Z)
    (db : list Event.t) (args : gmap string string) (key s : string) :
  args !! key = Some s ->
  (key ∈ ["camera"; "label"; "zone"]%string /\ s = ""%string)
  \/ (key ∈ ["after"; "before"]%string /\ Py.int s = Some 0) ->
  events sql_integer db args = events sql_integer db (delete key args).
Proof.
  intros Hs Hkey. apply events_same; symmetry.
  - destruct Hkey as [[Hk ->]|[Hk Hzero]].
    + unfold clause_list.
      repeat (apply elem_of_cons in Hk as [->|Hk]);
        try (by apply elem_of_nil in Hk);
        rewrite lookup_delete_eq, Hs; rewrite !lookup_delete_ne by done;
        reflexivity.
    + apply (clause_list_bound_ignored args key s); [|done|by right].
      repeat (apply elem_of_cons in Hk as [->|Hk]);
        try (by apply elem_of_nil in Hk); auto.
  - apply limit_of_delete. intros ->.
    destruct Hkey as [[Hk _]|[Hk _]];
      repeat (apply elem_of_cons in Hk as [Hk|Hk]; [discriminate Hk|]);
      by apply elem_of_nil in Hk.
Qed.

Lemma events_falsy_filter_dropped_witness :
  ({[ "before" := "0" ]} : gmap string string) !! "before"%string
    = Some "0"%string
  /\ Py.int "0" = Some 0
  /\ events Sqlite.integer_of_text Sample.db {[ "before" := "0" ]}%string
     = events Sqlite.integer_of_text Sample.db
         (delete "before"%string {[ "before" := "0" ]}%string).
Proof.
  assert (Hs : ({[ "before" := "0" ]} : gmap string string) !! "before"%string
               = Some "0"%string) by (vm_compute; reflexivity).
  assert (Hzero : Py.int "0" = Some 0) by (vm_compute; reflexivity).
  split; [exact Hs|]. split; [exact Hzero|].
  apply (events_falsy_filter_dropped Sqlite.integer_of_text Sample.db
           {[ "before" := "0" ]}%string "before"%string "0"%string Hs).
  right. split; [|exact Hzero]. by_computation.
Defined.

(** Bounds that exclude each other are no error: with [after] above
    [before], both integers of 64 bits other than zero, and a zone, if there
    is one, of at most 49996 bytes, the answer is the empty list. *)
Theorem events_empty_window (sql_integer : string -> option Z)
    (db : list Event.t) (args : gmap string string) (a b : string)
    (x y n : Z) :
  limit_in_force sql_integer args n ->
  args !! "after"%string = Some a -> Py.int a = Some x -> x ≠ 0 ->
  args !! "before"%string = Some b -> Py.int b = Some y -> y ≠ 0 ->
  Sqlite.int64 x = true -> Sqlite.int64 y = true ->
  (forall z, args !! "zone"%string = Some z -> pattern_fits z) ->
  y < x ->
  events sql_integer db args = Ok [].
Proof.
  intros Hlimit Ha Hx Hx0 Hb Hy Hy0 Hx64 Hy64 Hzone Hlt.
  rewrite (events_answer _ _ _ n); [| |by apply patterns_fit_condition|done].
  - rewrite (filter_ext_bool (clauses_hold args) (fun _ => false)).
    + assert (Hnone : List.filter (fun _ : Event.t => false) db = [])
        by (induction db; done).
      rewrite Hnone. unfold sql_limit. by destruct (n <? 0), (Z.to_nat n).
    + intros ev. unfold clauses_hold. rewrite Ha, Hb. simpl. rewrite Hx, Hy.
      simpl. destruct (Z.eqb_spec x 0); [done|].
      destruct (Z.eqb_spec y 0); [done|]. simpl.
      destruct (Z.leb_spec x (Event.start_time ev));
        destruct (Z.leb_spec (Event.start_time ev) y);
        rewrite ?andb_false_r; try done; lia.
  - apply bindable_condition. intros key s t [-> | ->] Hs Ht; congruence.
Qed.

Lemma events_empty_window_witness :
  limit_in_force Sqlite.integer_of_text
    {[ "after" := "3000"; "before" := "2000" ]}%string 100
  /\ Py.int "3000" = Some 3000 /\ Py.int "2000" = Some 2000
  /\ events Sqlite.integer_of_text Sample.db
       {[ "after" := "3000"; "before" := "2000" ]}%string = Ok [].
Proof.
  assert (Hl : limit_in_force Sqlite.integer_of_text
                 {[ "after" := "3000"; "before" := "2000" ]}%string 100)
    by (vm_compute; reflexivity).
  assert (Ha : Py.int "3000" = Some 3000) by (vm_compute; reflexivity).
  assert (Hb : Py.int "2000" = Some 2000) by (vm_compute; reflexivity).
  split; [exact Hl|]. split; [exact Ha|]. split; [exact Hb|].
  apply (events_empty_window Sqlite.integer_of_text Sample.db
           {[ "after" := "3000"; "before" := "2000" ]}%string
           "3000" "2000" 3000 2000 100 Hl);
    try exact Ha; try exact Hb; try lia; try (vm_compute; reflexivity).
  intros z Hz. vm_compute in Hz. discriminate Hz.
Defined.

(** ** A single event *)

Lemma event_get_unique (db : list Event.t) (ev : Event.t) :
  NoDup (map Event.id db) -> In ev db -> event_get db (Event.id ev) = Some ev.
Proof.
  unfold event_get. induction db as [|x db IH]; [done|].
  cbn [map List.find]. intros Hnodup [->|Hin].
  - by rewrite String.eqb_refl.
  - apply NoDup_cons in Hnodup as [Hx Hnodup].
    destruct (String.eqb_spec (Event.id x) (Event.id ev)) as [Heq|_].
    + exfalso. apply Hx. rewrite Heq. apply list_elem_of_In.
      by apply in_map.
    + by apply IH.
Qed.

Lemma event_get_none (db : list Event.t) (id : string) :
  event_get db id = None <-> forall ev, In ev db -> Event.id ev ≠ id.
Proof.
  unfold event_get. split.
  - intros Hnone ev Hin Hid.
    pose proof (find_none _ _ Hnone ev Hin) as Hf. simpl in Hf.
    rewrite Hid, String.eqb_refl in Hf. done.
  - intros Hall. induction db as [|x db IH]; [done|]. cbn [List.find].
    destruct (String.eqb_spec (Event.id x) id) as [Heq|_].
    + exfalso. apply (Hall x); [by left|done].
    + apply IH. intros ev Hin. apply Hall. by right.
Qed.

(** Looking a stored event up by its identifier gives that event back, the
    identifiers being unique as a primary key is. *)
Theorem event_by_id (db : list Event.t) (ev : Event.t) :
  NoDup (map Event.id db) -> In ev db ->
  event db (Event.id ev) = EventJson ev.
Proof.
  intros Hnodup Hin. unfold event. by rewrite event_get_unique.
Qed.

Lemma event_by_id_witness :
  NoDup (map Event.id Sample.db) /\ In Sample.ev3 Sample.db
  /\ event Sample.db (Event.id Sample.ev3) = EventJson Sample.ev3.
Proof.
  assert (Hnodup : NoDup (map Event.id Sample.db)) by by_computation.
  assert (Hin : In Sample.ev3 Sample.db) by (simpl; tauto).
  split; [exact Hnodup|]. split; [exact Hin|].
  exact (event_by_id Sample.db Sample.ev3 Hnodup Hin).
Defined.

(** The answer of [/events/<id>] is the 404 text exactly when no stored
    event has the identifier; any event it answers with is stored and has
    the identifier. *)
Theorem event_found_or_404 (db : list Event.t) (id : string) :
  (event db id = EventText 404 "Event not found"
   <-> forall ev, In ev db -> Event.id ev ≠ id)
  /\ (forall ev, event db id = EventJson ev -> In ev db /\ Event.id ev = id)
  /\ (forall status body,
        event db id = EventText status body ->
        status = 404 /\ body = "Event not found"%string).
Proof.
  unfold event. split; [|split].
  - rewrite <- event_get_none. by destruct (event_get db id).
  - intros ev. destruct (event_get db id) as [ev'|] eqn:Hget; [|done].
    intros [= ->]. apply find_some in Hget as [Hin Hid]. split; [done|].
    by apply String.eqb_eq.
  - intros status body. destruct (event_get db id); [done|].
    by intros [= <- <-].
Qed.

(** ** The snapshot of an event *)

(** For a stored event the snapshot is its thumbnail decoded, whatever the
    cameras track; an exception of the decoder is not caught. *)
Theorem snapshot_of_stored_event (thumbnail : Event.t -> string)
    (b64decode : string -> result (list Byte.byte))
    (db : list Event.t) (states : list CameraState) (ev : Event.t) :
  NoDup (map Event.id db) -> In ev db ->
  event_snapshot thumbnail b64decode db states (Event.id ev)
  = match b64decode (thumbnail ev) with
    | Ok body => Ok (SnapshotJpg body)
    | Raise e => Raise e
    end.
Proof.
  intros Hnodup Hin. unfold event_snapshot.
  rewrite event_get_unique by done. by destruct (b64decode (thumbnail ev)).
Qed.

Lemma snapshot_of_stored_event_witness :
  NoDup (map Event.id Sample.db) /\ In Sample.ev1 Sample.db
  /\ event_snapshot More.thumbnail More.b64decode Sample.db More.states "e1"
     = Ok (SnapshotJpg (list_byte_of_string "e1")).
Proof.
  assert (Hnodup : NoDup (map Event.id Sample.db)) by by_computation.
  assert (Hin : In Sample.ev1 Sample.db) by (simpl; tauto).
  split; [exact Hnodup|]. split; [exact Hin|].
  exact (snapshot_of_stored_event More.thumbnail More.b64decode Sample.db
           More.states Sample.ev1 Hnodup Hin).
Defined.

Lemma tracked_jpg_skip (pre : list CameraState) (rest : list CameraState)
    (id : string) :
  (forall st, In st pre ->
     tracked_objects st !! id = None \/ tracked_objects st !! id = Some None) ->
  tracked_jpg (pre ++ rest) id = tracked_jpg rest id.
Proof.
  induction pre as [|st pre IH]; [done|]. intros Hpre. cbn [app tracked_jpg].
  destruct (Hpre st (or_introl eq_refl)) as [-> | ->];
    apply IH; intros st' Hin; apply Hpre; by right.
Qed.

(** For an identifier that is not stored the snapshot route never raises.
    It answers with the picture of the first camera state that holds a tracked
    object under the identifier, with the 404 text when getting that
    picture raises, and with the 404 text when no camera state holds one. *)
Theorem snapshot_of_tracked_object (thumbnail : Event.t -> string)
    (b64decode : string -> result (list Byte.byte))
    (db : list Event.t) (states : list CameraState) (id : string) :
  (forall ev, In ev db -> Event.id ev ≠ id) ->
  (exists r, event_snapshot thumbnail b64decode db states id = Ok r)
  /\ ((forall st, In st states ->
         tracked_objects st !! id = None
         \/ tracked_objects st !! id = Some None) ->
      event_snapshot thumbnail b64decode db states id
      = Ok (SnapshotText 404 "Event not found"))
  /\ (forall pre st post obj,
        states = pre ++ st :: post ->
        (forall st', In st' pre ->
           tracked_objects st' !! id = None
           \/ tracked_objects st' !! id = Some None) ->
        tracked_objects st !! id = Some (Some obj) ->
        event_snapshot thumbnail b64decode db states id
        = Ok (match get_jpg_bytes obj with
              | Ok jpg => SnapshotJpg jpg
              | Raise _ => SnapshotText 404 "Event not found"
              end)).
Proof.
  intros Hnone. apply event_get_none in Hnone. unfold event_snapshot.
  rewrite Hnone. split; [|split].
  - destruct (tracked_jpg states id) as [[jpg|]|e]; by eexists.
  - intros Hall. rewrite <- (app_nil_r states).
    by rewrite tracked_jpg_skip.
  - intros pre st post obj -> Hpre Hst. rewrite tracked_jpg_skip by done.
    cbn [tracked_jpg]. rewrite Hst. by destruct (get_jpg_bytes obj).
Qed.

Lemma snapshot_of_tracked_object_witness :
  (forall ev, In ev Sample.db -> Event.id ev ≠ "t1"%string)
  /\ event_snapshot More.thumbnail More.b64decode Sample.db More.states "t1"
     = Ok (SnapshotJpg (list_byte_of_string "one")).
Proof.
  assert (Hnone : forall ev, In ev Sample.db -> Event.id ev ≠ "t1"%string).
  { intros ev Hin. simpl in Hin.
    destruct Hin as [<-|[<-|[<-|[<-|[]]]]]; discriminate. }
  split; [exact Hnone|].
  destruct (snapshot_of_tracked_object More.thumbnail More.b64decode
              Sample.db More.states "t1" Hnone) as (_ & _ & Hfirst).
  apply (Hfirst
           [ {| tracked_objects := {[ "t1"%string := None ]} |} ]
           {| tracked_objects := {[ "t1"%string := Some (More.tracked "one");
                                    "t2"%string := Some (More.tracked "two") ]} |}
           [] (More.tracked "one")).
  - reflexivity.
  - intros st' [<-|[]]. right. vm_compute. reflexivity.
  - vm_compute. reflexivity.
Defined.

(** ** The summary of events *)

Section SummaryFacts.

Variable local_day : Z -> string.

Lemma events_of_group_cons (k : string * string * string * string)
    (ev : Event.t) (db : list Event.t) :
  events_of_group local_day k (ev :: db)
  = ((if bool_decide (group_key local_day ev = k) then 1 else 0)
     + events_of_group local_day k db)%nat.
Proof.
  unfold events_of_group. cbn [List.filter]. by case_bool_decide.
Qed.

(** The count kept for a key is the count it had plus the rows of its
    group. *)
Lemma fold_count_lookup (db : list Event.t)
    (groups : gmap (string * string * string * string) nat)
    (k : string * string * string * string) :
  default 0%nat (fold_left (count_row local_day) db groups !! k)
  = (events_of_group local_day k db + default 0%nat (groups !! k))%nat.
Proof.
  revert groups. induction db as [|ev db IH]; intros groups; [done|].
  cbn [fold_left]. rewrite IH, events_of_group_cons. unfold count_row.
  case_bool_decide as Hk.
  - subst k. rewrite lookup_insert_eq. simpl. lia.
  - rewrite lookup_insert_ne by done. lia.
Qed.

Lemma fold_count_positive (db : list Event.t)
    (groups : gmap (string * string * string * string) nat) :
  (forall k c, groups !! k = Some c -> (0 < c)%nat) ->
  forall k c,
    fold_left (count_row local_day) db groups !! k = Some c -> (0 < c)%nat.
Proof.
  revert groups. induction db as [|ev db IH]; intros groups Hpos; [done|].
  cbn [fold_left]. apply IH. intros k c. unfold count_row.
  destruct (decide (group_key local_day ev = k)) as [<-|Hne].
  - rewrite lookup_insert_eq. intros [= <-]. lia.
  - rewrite lookup_insert_ne by done. apply Hpos.
Qed.

Lemma group_counts_lookup (db : list Event.t)
    (k : string * string * string * string) (c : nat) :
  group_counts local_day db !! k = Some c
  <-> c = events_of_group local_day k db /\ (0 < c)%nat.
Proof.
  unfold group_counts.
  pose proof (fold_count_lookup db ∅ k) as Hcount.
  rewrite lookup_empty in Hcount. simpl in Hcount.
  rewrite Nat.add_0_r in Hcount. split.
  - intros Hk. split.
    + by rewrite Hk in Hcount.
    + apply (fold_count_positive db ∅) with k; [|done].
      intros k' c'. by rewrite lookup_empty.
  - intros [-> Hpos].
    destruct (fold_left (count_row local_day) db ∅ !! k) as [c|]; simpl in *.
    + by subst c.
    + lia.
Qed.

(** Each row of [/events/summary] carries the number of stored events of
    its camera, label, day and zones, which is at least one; each group that
    has an event has a row, and no two rows have the same key. *)
Theorem summary_counts_groups (db : list Event.t) :
  (forall k c,
     (k, c) ∈ events_summary local_day db
     <-> c = events_of_group local_day k db /\ (0 < c)%nat)
  /\ (forall ev, In ev db ->
        exists c, (group_key local_day ev, c) ∈ events_summary local_day db)
  /\ NoDup (map fst (events_summary local_day db)).
Proof.
  unfold events_summary. split; [|split].
  - intros k c. rewrite elem_of_map_to_list. apply group_counts_lookup.
  - intros ev Hin. exists (events_of_group local_day (group_key local_day ev) db).
    rewrite elem_of_map_to_list. apply group_counts_lookup. split; [done|].
    unfold events_of_group.
    assert (Hin' : In ev (List.filter
              (fun ev' => bool_decide (group_key local_day ev'
                                       = group_key local_day ev)) db)).
    { apply filter_In. split; [done|]. by apply bool_decide_eq_true. }
    destruct (List.filter _ db); [done|]. simpl. lia.
  - apply NoDup_fst_map_to_list.
Qed.

Lemma count_row_total (groups : gmap (string * string * string * string) nat)
    (ev : Event.t) :
  sum_list_with snd (map_to_list (count_row local_day groups ev))
  = S (sum_list_with snd (map_to_list groups)).
Proof.
  unfold count_row. set (k := group_key local_day ev).
  destruct (groups !! k) as [c|] eqn:Hk; simpl.
  - rewrite <- insert_delete_eq.
    rewrite map_to_list_insert by apply lookup_delete_eq.
    rewrite <- (insert_delete_id groups k c) at 2 by done.
    rewrite (map_to_list_insert (delete k groups) k c)
      by apply lookup_delete_eq.
    done.
  - by rewrite map_to_list_insert by done.
Qed.

(** The counts of [/events/summary] add up to the number of stored events:
    every event is counted in one row and one only. *)
Theorem summary_counts_every_event (db : list Event.t) :
  sum_list_with snd (events_summary local_day db) = length db.
Proof.
  unfold events_summary, group_counts.
  assert (Hgen : forall groups,
    sum_list_with snd (map_to_list (fold_left (count_row local_day) db groups))
    = (length db + sum_list_with snd (map_to_list groups))%nat).
  { induction db as [|ev db IH]; intros groups; [done|].
    cbn [fold_left length]. rewrite IH, count_row_total. lia. }
  rewrite Hgen, map_to_list_empty. simpl. lia.
Qed.

End SummaryFacts.

Example summary_sample :
  sum_list_with snd (events_summary More.day Sample.db) = 4%nat
  /\ length (events_summary More.day Sample.db) = 4%nat.
Proof. vm_compute. done. Qed.

(** ** More on the stats snapshot *)

Lemma camera_loop_dom (items : list (string * CameraMetrics)) :
  dom (snd (camera_loop items)) = list_to_set (map fst items).
Proof.
  induction items as [|[name m] items IH] using rev_ind.
  - unfold camera_loop. simpl. apply dom_empty_L.
  - rewrite camera_loop_snoc, map_app, list_to_set_app_L. simpl.
    rewrite dom_insert_L, IH, (right_id_L ∅ (∪)). apply (comm_L (∪)).
Qed.

Lemma detector_loop_snoc (items : list (string * Detector))
    (name : string) (d : Detector) :
  detector_loop (items ++ [(name, d)])
  = <[name := detector_entry d]> (detector_loop items).
Proof. unfold detector_loop. by rewrite fold_left_app. Qed.

Lemma detector_loop_dom (items : list (string * Detector)) :
  dom (detector_loop items) = list_to_set (map fst items).
Proof.
  induction items as [|[name d] items IH] using rev_ind.
  - unfold detector_loop. simpl. apply dom_empty_L.
  - rewrite detector_loop_snoc, map_app, list_to_set_app_L. simpl.
    rewrite dom_insert_L, IH, (right_id_L ∅ (∪)). apply (comm_L (∪)).
Qed.

Lemma detector_loop_lookup (items : list (string * Detector))
    (name : string) (d : Detector) :
  NoDup (map fst items) -> In (name, d) items ->
  detector_loop items !! name = Some (detector_entry d).
Proof.
  induction items as [|[k v] items IH] using rev_ind; [done|].
  rewrite map_app, detector_loop_snoc. simpl. intros Hnodup Hin.
  apply NoDup_app in Hnodup as (Hnodup & Hfresh & _).
  apply in_app_or in Hin as [Hin|[[= -> ->]|[]]].
  - assert (Hname : name ∈ map fst items).
    { apply list_elem_of_In. apply in_map_iff. by exists (name, d). }
    assert (Hne : k ≠ name).
    { intros ->. apply (Hfresh name Hname). by left. }
    rewrite lookup_insert_ne by done. by apply IH.
  - by rewrite lookup_insert_eq.
Qed.

(** The keys of the snapshot of [/stats] are the names of the cameras and
    the two keys [detectors] and [detection_fps]; under these two the
    snapshot holds the detectors and the total, also when a camera goes by
    one of these names, whose own entry is then lost. *)
Theorem stats_keys (app : App) :
  dom (fst (stats app))
  = list_to_set (map fst (camera_metrics app))
      ∪ {[ "detectors"%string; "detection_fps"%string ]}
  /\ (exists ds, fst (stats app) !! "detectors"%string = Some (OfDetectors ds))
  /\ (exists q, fst (stats app) !! "detection_fps"%string = Some (OfTotal q)).
Proof.
  unfold stats. pose proof (camera_loop_dom (camera_metrics app)) as Hdom.
  destruct (camera_loop (camera_metrics app)) as [total out]. simpl in *.
  split; [|split].
  - rewrite !dom_insert_L, Hdom.
    rewrite (comm_L (∪) (list_to_set _)), (assoc_L (∪)).
    f_equal.
  - eexists. rewrite lookup_insert_ne by done. by rewrite lookup_insert_eq.
  - eexists. by rewrite lookup_insert_eq.
Qed.

(** Under [detectors] the snapshot holds one entry for each detector name
    and no other; a detector is reported with its average inference time
    in milliseconds (the stored double times 1000, as a double) rounded to
    two decimal places, and with its start time and its process as
    stored. *)
Theorem stats_detectors (app : App) :
  exists ds,
    fst (stats app) !! "detectors"%string = Some (OfDetectors ds)
    /\ dom ds = list_to_set (map fst (detectors app))
    /\ (NoDup (map fst (detectors app)) ->
        forall name d,
          In (name, d) (detectors app) ->
          exists e,
            ds !! name = Some e
            /\ stat_inference_speed e
               = Double.round2
                   (Double.mul (avg_inference_speed d) (Double.of_int 1000))
            /\ stat_detection_start e = detection_start d
            /\ stat_detect_pid e = detect_pid d).
Proof.
  exists (detector_loop (detectors app)). split; [|split].
  - unfold stats. destruct (camera_loop (camera_metrics app)) as [total out].
    simpl. rewrite lookup_insert_ne by done. by rewrite lookup_insert_eq.
  - apply detector_loop_dom.
  - intros Hnodup name d Hin. exists (detector_entry d).
    split; [by apply detector_loop_lookup|]. done.
Qed.

Lemma stats_detectors_witness :
  NoDup (map fst (detectors Sample.app))
  /\ exists ds,
       fst (stats Sample.app) !! "detectors"%string = Some (OfDetectors ds)
       /\ exists e, ds !! "cpu"%string = Some e
                    /\ stat_inference_speed e = Double.of_int 10.
Proof.
  assert (Hnodup : NoDup (map fst (detectors Sample.app))) by by_computation.
  split; [exact Hnodup|].
  destruct (stats_detectors Sample.app) as (ds & Hds & _ & Hall).
  exists ds. split; [exact Hds|].
  destruct (Hall Hnodup "cpu"%string
              {| avg_inference_speed := Sample.one_hundredth;
                 detection_start := Double.of_int 0;
                 detect_pid := 7 |}) as (e & He & Hspeed & _).
  - by left.
  - exists e. split; [exact He|]. rewrite Hspeed. vm_compute. reflexivity.
Defined.

(** ** More on the image handlers *)

Lemma frame_eta (f : Frame) :
  {| rows := rows f; cols := cols f; blank := blank f |} = f.
Proof. by destruct f. Qed.

Lemma serve_frame_own_size (args : gmap string string) (f : Frame) :
  args !! "h"%string = None -> 0 < rows f <= int_max -> 0 < cols f ->
  cols f <= int_max ->
  serve_frame args f = Ok (Image 200 (Jpeg f)).
Proof.
  intros Hnone Hrows Hcols Hmax.
  assert (Hown : rows f * cols f ÷ rows f = cols f)
    by (rewrite Z.mul_comm, Z.quot_mul; lia).
  rewrite (serve_frame_ok args f (rows f)); rewrite ?Hown; try done; try lia.
  - by rewrite frame_eta.
  - unfold requested_height. by rewrite Hnone.
  - nia.
Qed.

(** Without the parameter [h] the picture keeps its size: [latest.jpg]
    answers with the live frame as it is, and [best.jpg] without a crop with
    the converted best frame as it is, for pictures with sides from 1 to
    8192. *)
Theorem image_keeps_size_without_height (app : App)
    (camera_name label : string) (args : gmap string string) :
  camera_name ∈ config_cameras app ->
  args !! "h"%string = None ->
  (forall f,
     get_current_frame app camera_name = Some f -> sized f ->
     latest_frame app camera_name args = Ok (Image 200 (Jpeg f)))
  /\ (forall bgr,
        best_picture (get_best app camera_name label) = Ok bgr -> sized bgr ->
        crop_requested args = false ->
        best app camera_name label args = Ok (Image 200 (Jpeg bgr))).
Proof.
  intros Hknown Hnone. pose proof max_side_int_max as Hmax. split.
  - intros f Hf [Hrows Hcols].
    rewrite latest_frame_unfold, bool_decide_true by done. rewrite Hf.
    simpl. apply serve_frame_own_size; (done || lia).
  - intros bgr Hbgr [Hrows Hcols] Hcrop.
    rewrite best_unfold, bool_decide_true by done. cbv zeta.
    rewrite Hbgr, Hcrop. simpl. apply serve_frame_own_size; (done || lia).
Qed.

Lemma image_keeps_size_without_height_witness :
  "front"%string ∈ config_cameras Sample.app
  /\ sized Sample.live
  /\ latest_frame Sample.app "front" ∅ = Ok (Image 200 (Jpeg Sample.live)).
Proof.
  assert (Hknown : "front"%string ∈ config_cameras Sample.app)
    by by_computation.
  assert (Hnone : (∅ : gmap string string) !! "h"%string = None)
    by (vm_compute; reflexivity).
  assert (Hsized : sized Sample.live)
    by (unfold sized; vm_compute; repeat split; discriminate).
  split; [exact Hknown|]. split; [exact Hsized|].
  apply (proj1 (image_keeps_size_without_height Sample.app "front" "person" ∅
                  Hknown Hnone) Sample.live);
    [reflexivity|exact Hsized].
Defined.

(** The crop switch of [best.jpg] is off unless the parameter [crop] is an
    integer other than zero: with [crop=0], or a text that is no integer,
    the answer is that of the same request without the parameter. *)
Theorem best_crop_switch_off (app : App) (camera_name label : string)
    (args : gmap string string) (s : string) :
  args !! "crop"%string = Some s ->
  Py.int s = None \/ Py.int s = Some 0 ->
  best app camera_name label args
  = best app camera_name label (delete "crop"%string args).
Proof.
  intros Hs Hint. rewrite !best_unfold.
  assert (Hcrop : crop_requested args = false).
  { unfold crop_requested, args_get_int_default. rewrite Hs.
    by destruct Hint as [-> | ->]. }
  assert (Hcrop' : crop_requested (delete "crop"%string args) = false).
  { unfold crop_requested, args_get_int_default.
    by rewrite lookup_delete_eq. }
  rewrite Hcrop, Hcrop'.
  assert (Hserve : forall f,
    serve_frame args f = serve_frame (delete "crop"%string args) f).
  { intros f. unfold serve_frame, int_of_arg.
    by rewrite lookup_delete_ne by done. }
  case_bool_decide; [|done]. cbv zeta.
  destruct (best_picture _); simpl; [apply Hserve|done].
Qed.

Lemma best_crop_switch_off_witness :
  ({[ "crop" := "yes" ]} : gmap string string) !! "crop"%string
    = Some "yes"%string
  /\ Py.int "yes" = None
  /\ best Sample.app "front" "person" {[ "crop" := "yes" ]}%string
     = best Sample.app "front" "person"
         (delete "crop"%string {[ "crop" := "yes" ]}%string).
Proof.
  assert (Hs : ({[ "crop" := "yes" ]} : gmap string string) !! "crop"%string
               = Some "yes"%string) by (vm_compute; reflexivity).
  assert (Hint : Py.int "yes" = None) by (vm_compute; reflexivity).
  split; [exact Hs|]. split; [exact Hint|].
  apply (best_crop_switch_off Sample.app "front" "person"
           {[ "crop" := "yes" ]}%string "yes"%string Hs).
  by left.
Defined.



(** A recorded region without rows makes [best.jpg] with the crop switched
    on fail: the quotient that gives the width divides by the height 0 of
    the crop, whether the height asked for is absent or an integer. *)
Theorem best_crop_empty_region (app : App) (camera_name label : string)
    (args : gmap string string) (bgr : Frame) (x1 y1 x2 y2 : Z) :
  camera_name ∈ config_cameras app ->
  best_picture (get_best app camera_name label) = Ok bgr ->
  best_region (get_best app camera_name label) = Some (x1, y1, x2, y2) ->
  crop_requested args = true ->
  (forall s, args !! "h"%string = Some s -> is_Some (Py.int s)) ->
  0 <= y2 <= y1 ->
  best app camera_name label args = Raise ZeroDivisionError.
Proof.
  intros Hknown Hbgr Hregion Hcrop Hh Hy.
  destruct (best_picture_nonempty _ _ Hbgr) as [[Hrows _] _].
  rewrite best_unfold, bool_decide_true by done. cbv zeta.
  rewrite Hbgr, Hcrop, Hregion.
  change (serve_frame args (crop_frame bgr (x1, y1, x2, y2))
          = Raise ZeroDivisionError).
  assert (Hempty : rows (crop_frame bgr (x1, y1, x2, y2)) = 0).
  { unfold crop_frame, slice_len, slice_bound. simpl.
    destruct (Z.ltb_spec y1 0); [lia|]. destruct (Z.ltb_spec y2 0); [lia|].
    lia. }
  unfold serve_frame. rewrite Hempty.
  assert (Hheight : exists h, int_of_arg args "h" (Py.str 0) = Ok h).
  { unfold int_of_arg. destruct (args !! "h"%string) as [s|] eqn:Hs.
    - simpl. destruct (Hh s eq_refl) as [h ->]. by exists h.
    - unfold default. exists 0. by vm_compute. }
  destruct Hheight as [h ->]. done.
Qed.

Lemma best_crop_empty_region_witness :
  "front"%string ∈ config_cameras More.flat_app
  /\ best_region (get_best More.flat_app "front" "person")
     = Some (100, 450, 500, 450)
  /\ best More.flat_app "front" "person" {[ "crop" := "1" ]}%string
     = Raise ZeroDivisionError.
Proof.
  assert (Hknown : "front"%string ∈ config_cameras More.flat_app)
    by by_computation.
  assert (Hbgr : best_picture (get_best More.flat_app "front" "person")
                 = Ok Sample.live) by (vm_compute; reflexivity).
  assert (Hregion : best_region (get_best More.flat_app "front" "person")
                    = Some (100, 450, 500, 450)) by reflexivity.
  assert (Hcrop : crop_requested {[ "crop" := "1" ]}%string = true)
    by (vm_compute; reflexivity).
  split; [exact Hknown|]. split; [exact Hregion|].
  apply (best_crop_empty_region More.flat_app "front" "person"
           {[ "crop" := "1" ]}%string Sample.live 100 450 500 450
           Hknown Hbgr Hregion Hcrop); [|lia].
  intros s Hs. vm_compute in Hs. discriminate Hs.
Defined.

(** A height that is no integer is not tolerated by the image routes of a
    known camera: [latest.jpg] raises [ValueError] whatever the frame, and
    so does [best.jpg] once it has its picture. *)
Theorem image_height_not_an_integer (app : App) (camera_name label : string)
    (args : gmap string string) (s : string) :
  camera_name ∈ config_cameras app ->
  args !! "h"%string = Some s -> Py.int s = None ->
  latest_frame app camera_name args = Raise ValueError
  /\ (forall bgr,
        best_picture (get_best app camera_name label) = Ok bgr ->
        best app camera_name label args = Raise ValueError).
Proof.
  intros Hknown Hs Hint.
  assert (Hserve : forall f, serve_frame args f = Raise ValueError).
  { intros f. unfold serve_frame, int_of_arg. rewrite Hs. simpl.
    by rewrite Hint. }
  split.
  - rewrite latest_frame_unfold, bool_decide_true by done.
    destruct (get_current_frame app camera_name) as [f|]; apply Hserve.
  - intros bgr Hbgr. rewrite best_unfold, bool_decide_true by done.
    cbv zeta. rewrite Hbgr. apply Hserve.
Qed.

Lemma image_height_not_an_integer_witness :
  "front"%string ∈ config_cameras Sample.app
  /\ Py.int "tall" = None
  /\ latest_frame Sample.app "front" {[ "h" := "tall" ]}%string
     = Raise ValueError.
Proof.
  assert (Hknown : "front"%string ∈ config_cameras Sample.app)
    by by_computation.
  assert (Hs : ({[ "h" := "tall" ]} : gmap string string) !! "h"%string
               = Some "tall"%string) by (vm_compute; reflexivity).
  assert (Hint : Py.int "tall" = None) by (vm_compute; reflexivity).
  split; [exact Hknown|]. split; [exact Hint|].
  exact (proj1 (image_height_not_an_integer Sample.app "front" "person"
                  {[ "h" := "tall" ]}%string "tall" Hknown Hs Hint)).
Defined.

(** ** More on the stream *)

Lemma render_scaled (height : Z) (fetched : option Frame) :
  0 < height <= int_max -> height * 16 ÷ 9 <= int_max ->
  (forall f, fetched = Some f ->
     0 < rows f /\ 0 < cols f /\ rows f <= height * cols f
     /\ height * cols f ÷ rows f <= int_max) ->
  render height fetched = Ok (scaled height fetched).
Proof.
  intros Hh Hplace Hgood. unfold render.
  assert (Hserve : forall f,
    0 < rows f -> 0 < cols f -> rows f <= height * cols f ->
    height * cols f ÷ rows f <= int_max ->
    (width ← int_truediv (height * cols f) (rows f);
     frame ← cv2_resize f width height;
     cv2_imencode frame)
    = Ok (Jpeg {| rows := height; cols := height * cols f ÷ rows f;
                  blank := blank f |})).
  { intros f Hrows Hcols Hwide Hwidth. unfold int_truediv.
    destruct (Z.eqb_spec (rows f) 0); [lia|]. simpl.
    assert (Hw : 0 < height * cols f ÷ rows f).
    { rewrite Z.quot_div_nonneg by lia. apply Z.div_str_pos. lia. }
    unfold cv2_resize, frame_empty.
    destruct (Z.leb_spec (rows f) 0); [lia|].
    destruct (Z.leb_spec (cols f) 0); [lia|].
    destruct (Z.leb_spec (height * cols f ÷ rows f) 0); [lia|].
    destruct (Z.leb_spec height 0); [lia|].
    destruct (Z.ltb_spec int_max (height * cols f ÷ rows f)); [lia|].
    destruct (Z.ltb_spec int_max height); [lia|]. simpl.
    unfold cv2_imencode, frame_empty. simpl.
    destruct (Z.leb_spec height 0); [lia|].
    by destruct (Z.leb_spec (height * cols f ÷ rows f) 0); [lia|]. }
  destruct fetched as [f|].
  - destruct (Hgood f eq_refl) as (Hrows & Hcols & Hwide & Hwidth). simpl.
    by apply Hserve.
  - assert (Hw : 0 < height * 16 ÷ 9).
    { rewrite Z.quot_div_nonneg by lia. apply Z.div_str_pos. lia. }
    assert (Hdiv : int_truediv (height * 16) 9 = Ok (height * 16 ÷ 9))
      by reflexivity.
    assert (Hzeros : np_zeros height (height * 16 ÷ 9)
                     = Ok {| rows := height; cols := height * 16 ÷ 9;
                             blank := true |}).
    { unfold np_zeros. destruct (Z.ltb_spec height 0); [lia|].
      by destruct (Z.ltb_spec (height * 16 ÷ 9) 0); [lia|]. }
    assert (Hown : height * (height * 16 ÷ 9) ÷ height = height * 16 ÷ 9)
      by (rewrite (Z.mul_comm height), Z.quot_mul; lia).
    rewrite Hdiv. simpl. rewrite Hzeros. simpl.
    specialize (Hserve {| rows := height; cols := height * 16 ÷ 9;
                          blank := true |}).
    simpl in Hserve. rewrite Hserve; rewrite ?Hown; try nia.
    done.
Qed.

(** The chunks of a stream are, in the order of the turns, what each turn
    fetched, scaled to the height of the stream with the width following
    the frame's proportions; a turn that fetched nothing hands out the blank
    placeholder of 16 to 9 at that height.  This is so for a positive rate
    and height, and sides of the frames and of the chunks from 1 to
    8192. *)
Theorem stream_chunks_follow_fetches (fps height : Z)
    (source : nat -> option Frame) (n : nat) :
  0 < fps -> 0 < height -> scalable height source ->
  yielded (fst (imagestream fps height source n))
  = map (fun i => scaled height (source i)) (seq 0 n).
Proof.
  intros Hfps Hh. revert source. induction n as [|n IH]; intros source Hgood.
  - done.
  - cbn [imagestream]. unfold imagestream_turn.
    rewrite sleep_interval_ok by done.
    pose proof max_side_int_max as Hside.
    pose proof (height_within height Hh (proj1 Hgood)) as Hmax.
    rewrite render_scaled; [|lia|pose proof (proj1 Hgood); lia|].
    2:{ intros f Hf.
        destruct (proj2 Hgood 0%nat f Hf)
          as ((Hrows & Hcols) & _ & Hwide & Hwidth).
        lia. }
    specialize (IH (fun i => source (S i))).
    destruct (imagestream fps height (fun i => source (S i)) n)
      as [rest e].
    simpl in *. f_equal. rewrite IH.
    + by rewrite <- seq_shift, map_map.
    + split; [apply Hgood|]. intros i f Hf. by apply (proj2 Hgood (S i)).
Qed.

Lemma stream_chunks_follow_fetches_witness :
  0 < 5 /\ 0 < 360
  /\ scalable 360 (fun i => if Nat.even i then Some Sample.live else None)
  /\ yielded (fst (imagestream 5 360
                     (fun i => if Nat.even i then Some Sample.live else None)
                     2))
     = [Jpeg {| rows := 360; cols := 640; blank := false |};
        Jpeg {| rows := 360; cols := 640; blank := true |}].
Proof.
  assert (Hfps : 0 < 5) by lia. assert (Hh : 0 < 360) by lia.
  assert (Hgood : scalable 360
                    (fun i => if Nat.even i then Some Sample.live else None)).
  { split; [vm_compute; discriminate|]. intros i f Hf.
    destruct (Nat.even i); [|done]. injection Hf as <-.
    unfold scales_to, sized. vm_compute. repeat split; discriminate. }
  split; [exact Hfps|]. split; [exact Hh|]. split; [exact Hgood|].
  exact (stream_chunks_follow_fetches 5 360
           (fun i => if Nat.even i then Some Sample.live else None) 2
           Hfps Hh Hgood).
Defined.

(** A stream is one sequence, seen further the longer it is run: what [n]
    turns do is the beginning of what [n + m] turns do, whatever the
    parameters. *)
Theorem stream_runs_extend (fps height : Z) (source : nat -> option Frame)
    (n m : nat) :
  fst (imagestream fps height source n)
    `prefix_of` fst (imagestream fps height source (n + m)).
Proof.
  revert source. induction n as [|n IH]; intros source.
  - apply prefix_nil.
  - cbn [Nat.add imagestream].
    destruct (imagestream_turn fps height (source 0%nat)) as [acts [e|]].
    + done.
    + specialize (IH (fun i => source (S i))).
      destruct (imagestream fps height (fun i => source (S i)) n)
        as [rest e].
      destruct (imagestream fps height (fun i => source (S i)) (n + m))
        as [rest' e'].
      simpl in *. by apply prefix_app.
Qed.

(** An exception ends a stream for good: once a turn has raised, running
    the generator for more turns adds nothing. *)
Theorem stream_exception_is_final (fps height : Z)
    (source : nat -> option Frame) (n m : nat) (e : exn) :
  snd (imagestream fps height source n) = Some e ->
  imagestream fps height source (n + m) = imagestream fps height source n.
Proof.
  revert source. induction n as [|n IH]; intros source; [done|].
  cbn [Nat.add imagestream].
  destruct (imagestream_turn fps height (source 0%nat)) as [acts [e'|]].
  - done.
  - specialize (IH (fun i => source (S i))).
    destruct (imagestream fps height (fun i => source (S i)) n)
      as [rest e1].
    simpl in *. intros He. by rewrite IH.
Qed.

Lemma stream_exception_is_final_witness :
  snd (imagestream 5 0 (fun _ => None) 1) = Some ZeroDivisionError
  /\ imagestream 5 0 (fun _ => None) (1 + 3)
     = imagestream 5 0 (fun _ => None) 1.
Proof.
  assert (H : snd (imagestream 5 0 (fun _ => None) 1)
              = Some ZeroDivisionError) by (vm_compute; reflexivity).
  split; [exact H|].
  exact (stream_exception_is_final 5 0 (fun _ => None) 1 3
           ZeroDivisionError H).
Defined.

(** ** The sign of [1/fps] *)

Lemma digits2_bounds (p : positive) :
  2 ^ (Z.pos (digits2_pos p) - 1) <= Z.pos p < 2 ^ Z.pos (digits2_pos p).
Proof.
  induction p as [p IH|p IH|]; cbn [digits2_pos].
  - rewrite Pos2Z.inj_succ. change (Z.pos p~1) with (2 * Z.pos p + 1).
    replace (Z.succ (Z.pos (digits2_pos p)) - 1)
      with (Z.succ (Z.pos (digits2_pos p) - 1)) by lia.
    rewrite !Z.pow_succ_r by lia.
    set (A := 2 ^ (Z.pos (digits2_pos p) - 1)) in *.
    set (B := 2 ^ Z.pos (digits2_pos p)) in *. lia.
  - rewrite Pos2Z.inj_succ. change (Z.pos p~0) with (2 * Z.pos p).
    replace (Z.succ (Z.pos (digits2_pos p)) - 1)
      with (Z.succ (Z.pos (digits2_pos p) - 1)) by lia.
    rewrite !Z.pow_succ_r by lia.
    set (A := 2 ^ (Z.pos (digits2_pos p) - 1)) in *.
    set (B := 2 ^ Z.pos (digits2_pos p)) in *. lia.
  - simpl. lia.
Qed.

Lemma shr_1_half (mrs : shr_record) :
  0 <= shr_m mrs -> shr_m (shr_1 mrs) = shr_m mrs / 2.
Proof.
  destruct mrs as [m r s]. cbn [shr_m]. intros Hm.
  destruct m as [|p|p]; [done| |lia].
  destruct p as [p|p|]; cbn [shr_1 shr_m].
  - change (Z.pos p~1) with (2 * Z.pos p + 1).
    apply Z.div_unique with 1; lia.
  - change (Z.pos p~0) with (2 * Z.pos p).
    apply Z.div_unique with 0; lia.
  - done.
Qed.

Lemma shr_iter_div (n : positive) (mrs : shr_record) :
  0 <= shr_m mrs ->
  shr_m (SpecFloat.iter_pos shr_1 n mrs) = shr_m mrs / 2 ^ Z.pos n.
Proof.
  revert mrs. induction n as [n IH|n IH|]; intros mrs Hm; cbn [SpecFloat.iter_pos].
  - assert (H1 : 0 <= shr_m (shr_1 mrs))
      by (rewrite shr_1_half by done; apply Z.div_pos; lia).
    assert (H2 : 0 <= shr_m (SpecFloat.iter_pos shr_1 n (shr_1 mrs)))
      by (rewrite IH by done; apply Z.div_pos; [done|apply Z.pow_pos_nonneg; lia]).
    rewrite !IH, shr_1_half by done.
    rewrite !Z.div_div by (try apply Z.pow_pos_nonneg; lia).
    f_equal. change (Z.pos n~1) with (2 * Z.pos n + 1).
    replace (2 * Z.pos n + 1) with (1 + Z.pos n + Z.pos n) by lia.
    rewrite !Z.pow_add_r by lia. lia.
  - assert (H2 : 0 <= shr_m (SpecFloat.iter_pos shr_1 n mrs))
      by (rewrite IH by done; apply Z.div_pos; [done|apply Z.pow_pos_nonneg; lia]).
    rewrite !IH by done.
    rewrite !Z.div_div by (try apply Z.pow_pos_nonneg; lia).
    f_equal. change (Z.pos n~0) with (2 * Z.pos n).
    replace (2 * Z.pos n) with (Z.pos n + Z.pos n) by lia.
    rewrite !Z.pow_add_r by lia. lia.
  - rewrite shr_1_half by done. done.
Qed.

Lemma shr_record_of_loc_m (m : Z) (l : location) :
  shr_m (shr_record_of_loc m l) = m.
Proof. by destruct l as [|[]]. Qed.

Lemma loc_of_shr_record_of_loc (m : Z) (l : location) :
  loc_of_shr_record (shr_record_of_loc m l) = l.
Proof. by destruct l as [|[]]. Qed.

(** A mantissa that is not zero stays so when it is brought to the format,
    from the least exponent upward. *)
Lemma shr_fexp_positive (m e : Z) (l : location) :
  1 <= m -> -1074 <= e ->
  1 <= shr_m (fst (shr_fexp Double.prec Double.emax m e l))
  /\ -1074 <= snd (shr_fexp Double.prec Double.emax m e l).
Proof.
  intros Hm He. unfold shr_fexp, shr.
  destruct m as [|p|p]; [lia| |lia]. cbn [Zdigits2].
  pose proof (digits2_bounds p) as [Hlo Hhi].
  set (d := Z.pos (digits2_pos p)) in *.
  assert (Hfexp : fexp Double.prec Double.emax (d + e)
                  = Z.max (d + e - 53) (-1074)) by reflexivity.
  rewrite Hfexp.
  destruct (Z.max (d + e - 53) (-1074) - e) as [|n|n] eqn:Hn; cbn [fst snd].
  - by rewrite shr_record_of_loc_m.
  - rewrite shr_iter_div by (rewrite shr_record_of_loc_m; lia).
    rewrite shr_record_of_loc_m. split; [|lia].
    assert (Hd : Z.pos n = d - 53) by lia.
    assert (Hpow : 2 ^ Z.pos n <= 2 ^ (d - 1))
      by (apply Z.pow_le_mono_r; lia).
    assert (0 < Z.pos p / 2 ^ Z.pos n); [|lia].
    apply Z.div_str_pos. split; [apply Z.pow_pos_nonneg; lia|lia].
  - by rewrite shr_record_of_loc_m.
Qed.

Lemma round_nearest_even_ge (m : Z) (l : location) :
  m <= round_nearest_even m l.
Proof.
  destruct l as [|[]]; cbn [round_nearest_even]; try lia.
  destruct (Z.even m); lia.
Qed.

Lemma binary_round_aux_nonzero (s : bool) (m e : Z) (l : location) :
  1 <= m \/ (m = 0 /\ l = loc_Inexact Gt) -> -1074 <= e ->
  exists s' , binary_round_aux Double.prec Double.emax s m e l
              = S754_infinity s'
  \/ exists m' e', binary_round_aux Double.prec Double.emax s m e l
                   = S754_finite s' m' e'.
Proof.
  intros Hm He. unfold binary_round_aux.
  assert (Hfirst :
    1 <= round_nearest_even
           (shr_m (fst (shr_fexp Double.prec Double.emax m e l)))
           (loc_of_shr_record (fst (shr_fexp Double.prec Double.emax m e l)))
    /\ -1074 <= snd (shr_fexp Double.prec Double.emax m e l)).
  { destruct Hm as [Hm|[-> ->]].
    - destruct (shr_fexp_positive m e l Hm He) as [H1 H2]. split; [|done].
      etrans; [exact H1|apply round_nearest_even_ge].
    - unfold shr_fexp, shr. cbn [Zdigits2].
      assert (Hfexp : fexp Double.prec Double.emax (0 + e)
                      = Z.max (0 + e - 53) (-1074)) by reflexivity.
      rewrite Hfexp.
      destruct (Z.max (0 + e - 53) (-1074) - e) as [|n|n] eqn:Hn;
        [|lia|]; cbn [fst snd shr_record_of_loc shr_m loc_of_shr_record
                      round_nearest_even]; lia. }
  destruct (shr_fexp Double.prec Double.emax m e l) as [mrs' e'].
  cbn [fst snd] in Hfirst. destruct Hfirst as [Hround He'].
  pose proof (shr_fexp_positive _ e' loc_Exact Hround He') as [Hlast _].
  destruct (shr_fexp Double.prec Double.emax _ e' loc_Exact) as [mrs'' e''].
  cbn [fst] in Hlast. exists s.
  destruct (shr_m mrs'') as [|m'|m']; [lia| |lia].
  destruct (e'' <=? Double.emax - Double.prec); [right|left]; eauto.
Qed.

(** The quotient [1/p] as it goes into rounding, for [p] below [2^1075]. *)
Lemma div_core_one (p : Z) :
  1 <= p < 2 ^ 1075 ->
  exists q e l,
    SFdiv_core_binary Double.prec Double.emax 1 0 p 0 = (q, e, l)
    /\ -1074 <= e /\ (1 <= q \/ (q = 0 /\ l = loc_Inexact Gt)).
Proof.
  intros [Hp Hmax]. unfold SFdiv_core_binary.
  destruct p as [|p|p]; [lia| |lia]. cbn [Zdigits2].
  pose proof (digits2_bounds p) as [Hlo Hhi].
  set (k := Z.pos (digits2_pos p)) in *.
  assert (Hk : 1 <= k <= 1075).
  { split; [lia|]. destruct (Z.le_gt_cases k 1075) as [|Hgt]; [done|].
    assert (2 ^ 1075 <= 2 ^ (k - 1)) by (apply Z.pow_le_mono_r; lia). lia. }
  assert (He : Z.min (fexp Double.prec Double.emax (1 + 0 - (k + 0))) (0 - 0)
               = Z.max (- 52 - k) (-1074)).
  { change (fexp Double.prec Double.emax (1 + 0 - (k + 0)))
      with (Z.max (1 + 0 - (k + 0) - 53) (-1074)). lia. }
  change (Z.pos (digits2_pos 1)) with 1.
  change IntDef.Z.min with Z.min. rewrite He.
  set (e := Z.max (- 52 - k) (-1074)) in *.
  assert (Hs : 0 - 0 - e = Z.pos (Z.to_pos (- e))) by lia.
  rewrite Hs. change IntDef.Z.shiftl with Z.shiftl.
  rewrite Z.shiftl_1_l. change IntDef.Z.div_eucl with Z.div_eucl.
  set (s := Z.pos (Z.to_pos (- e))) in *.
  pose proof (Z.div_eucl_eq (2 ^ s) (Z.pos p) ltac:(lia)) as Heq.
  pose proof (Z.mod_pos_bound (2 ^ s) (Z.pos p) ltac:(lia)) as Hr.
  pose proof (Z.div_pos (2 ^ s) (Z.pos p) ltac:(apply Z.pow_nonneg; lia)
                ltac:(lia)) as Hq.
  unfold Z.modulo, Z.div in Hr, Hq.
  destruct (Z.div_eucl (2 ^ s) (Z.pos p)) as [q r].
  exists q, e, (new_location (Z.pos p) r). split; [done|]. split; [lia|].
  destruct (Z.eq_dec q 0) as [->|Hq0]; [right|left; lia].
  split; [done|]. assert (Hr2 : r = 2 ^ s) by lia.
  assert (Hsk : s < k).
  { destruct (Z.lt_ge_cases s k) as [|Hge]; [done|].
    assert (2 ^ k <= 2 ^ s) by (apply Z.pow_le_mono_r; lia). lia. }
  assert (Hs1074 : s = 1074) by lia.
  assert (Hr0 : r ≠ 0) by (pose proof (Z.pow_pos_nonneg 2 s); lia).
  assert (Hbig : Z.pos p < 2 * r).
  { rewrite Hr2, Hs1074. rewrite <- Z.pow_succ_r by lia. exact Hmax. }
  unfold new_location.
  destruct (Z.even (Z.pos p)).
  - unfold new_location_even. destruct (Z.eqb_spec r 0) as [|_]; [done|].
    by rewrite (proj2 (Z.compare_gt_iff (2 * r) (Z.pos p))) by lia.
  - unfold new_location_odd. destruct (Z.eqb_spec r 0) as [|_]; [done|].
    by rewrite (proj2 (Z.compare_gt_iff (2 * r + 1) (Z.pos p))) by lia.
Qed.

(** [1/fps] is a negative double for a negative rate above [-2^1075]. *)
Lemma true_div_negative (fps : Z) :
  - 2 ^ 1075 < fps < 0 -> Double.negative (Double.true_div 1 fps) = true.
Proof.
  intros [Hlo Hhi]. unfold Double.true_div.
  change (1 =? 0) with false. change (1 <? 0) with false. cbv iota.
  destruct (Z.ltb_spec fps 0) as [_|]; [|lia]. cbn [xorb].
  change (Z.abs 1) with 1.
  destruct (div_core_one (Z.abs fps)) as (q & e & l & Hdiv & He & Hq); [lia|].
  rewrite Hdiv.
  pose proof (binary_round_aux_sign true q e l) as Hsign.
  destruct (binary_round_aux_nonzero true q e l Hq He)
    as (s' & [Hr|(m' & e' & Hr)]); rewrite Hr in *; by subst s'.
Qed.

(** A negative rate above [-2^1075] is taken by the stream route of a known
    camera like any integer; the generator then raises [ValueError] at its
    first sleep, before any fetch or chunk.  (From [-2^1075] downward the
    quotient [1/fps] is the double [-0.0], which [time.sleep] takes.) *)
Theorem mjpeg_negative_fps (app : App) (camera_name s : string)
    (args : gmap string string) (fps height : Z)
    (source : nat -> option Frame) (n : nat) :
  camera_name ∈ config_cameras app ->
  args !! "fps"%string = Some s -> Py.int s = Some fps ->
  - 2 ^ 1075 < fps < 0 ->
  int_of_arg args "h" "360" = Ok height ->
  mjpeg_feed app camera_name args = Ok (Multipart camera_name fps height)
  /\ imagestream fps height source (S n) = ([], Some ValueError).
Proof.
  intros Hknown Hs Hint Hneg Hh. split.
  - assert (Hfps : int_of_arg args "fps" "3" = Ok fps).
    { unfold int_of_arg. rewrite Hs. simpl. by rewrite Hint. }
    unfold mjpeg_feed. rewrite Hfps, Hh. simpl.
    by rewrite bool_decide_true by done.
  - cbn [imagestream]. unfold imagestream_turn, sleep_interval.
    destruct (Z.eqb_spec fps 0); [lia|].
    by rewrite true_div_negative.
Qed.

Lemma mjpeg_negative_fps_witness :
  "front"%string ∈ config_cameras Sample.app
  /\ Py.int "-2" = Some (-2)
  /\ mjpeg_feed Sample.app "front" {[ "fps" := "-2" ]}%string
     = Ok (Multipart "front" (-2) 360)
  /\ imagestream (-2) 360 (fun _ => Some Sample.live) 1
     = ([], Some ValueError).
Proof.
  assert (Hknown : "front"%string ∈ config_cameras Sample.app)
    by by_computation.
  assert (Hs : ({[ "fps" := "-2" ]} : gmap string string) !! "fps"%string
               = Some "-2"%string) by (vm_compute; reflexivity).
  assert (Hint : Py.int "-2" = Some (-2)) by (vm_compute; reflexivity).
  assert (Hneg : - 2 ^ 1075 < -2 < 0) by (split; vm_compute; reflexivity).
  assert (Hh : int_of_arg {[ "fps" := "-2" ]}%string "h" "360" = Ok 360)
    by (vm_compute; reflexivity).
  split; [exact Hknown|]. split; [exact Hint|].
  exact (mjpeg_negative_fps Sample.app "front" "-2" {[ "fps" := "-2" ]}%string
           (-2) 360 (fun _ => Some Sample.live) 0 Hknown Hs Hint Hneg Hh).
Defined.

Example sleep_samples :
  sleep_interval (- (2 ^ 1075 - 1)) = Raise ValueError
  /\ sleep_interval (- 2 ^ 1075) = Ok 0%Q
  /\ sleep_interval (2 ^ 1075) = Ok 0%Q
  /\ sleep_interval 4 = Ok (4503599627370496 # 18014398509481984)%Q.
Proof. vm_compute. repeat split. Qed.

(** ** The connection around a request *)

(** Every request leaves the database connection closed, whether its view
    answered or raised and whatever state the connection was found in.
    Hence, starting from a closed connection, no request of a sequence finds
    the connection open: each one gets the answer of its own view.  A
    request that does find the connection open is refused with a database
    error, and the connection is closed after it. *)
Theorem connection_closed_after_request :
  (forall (A : Type) (c : connection) (view : result A),
     fst (serve c view) = Closed)
  /\ (forall (A : Type) (views : list (result A)),
        serve_all Closed views = (Closed, views))
  /\ (forall (A : Type) (view : result A),
        serve Opened view = (Closed, Raise DatabaseError)).
Proof.
  split; [|split].
  - intros A [|] view; done.
  - intros A views. induction views as [|view views IH]; [done|].
    cbn [serve_all]. change (serve Closed view) with (Closed, view).
    cbv beta iota. by rewrite IH.
  - done.
Qed.
